(** * event_manager: authentication and lockout core

    A shallow embedding of [app/models/user_model.py] and
    [app/services/jwt_service.py], with the properties of the
    authentication-and-lockout specification stated over it.

    Conventions.
    - A [datetime] is a number of microseconds since the Unix epoch (naive
      UTC, the resolution of Python's [datetime]); a [timedelta] is a signed
      number of microseconds.
    - Python [str] values are modelled as [string]; [str.upper] acts on the
      ASCII letters, which covers every role name of the code base.
    - A Python [dict] is a finite map with string keys; dict objects live in
      a heap and are passed by reference. *)

From Stdlib Require Import ZArith Ascii String.
From stdpp Require Import base decidable option list gmap strings fin_maps.

Local Open Scope string_scope.
Local Open Scope Z_scope.

(** ** Time *)

Abbreviation datetime := Z (only parsing).
Abbreviation timedelta := Z (only parsing).

Definition MICROS_PER_SECOND : Z := 1000000.
Definition MICROS_PER_MINUTE : Z := 60 * MICROS_PER_SECOND.
Definition MICROS_PER_DAY : Z := 86400 * MICROS_PER_SECOND.

(** ** Configuration

    [settings.config] lies outside the modules embedded here; the four
    options the code reads are taken as a record passed to every
    operation. *)

Record Settings := {
  access_token_expire_minutes : Z;
  jwt_secret_key : string;
  jwt_algorithm : string;
  max_login_attempts : Z
}.

(** ** Role model ([UserRole]) *)

Inductive UserRole := ANONYMOUS | AUTHENTICATED | MANAGER | ADMIN.

#[global] Instance UserRole_eq_dec : EqDecision UserRole.
Proof. solve_decision. Defined.

(** Position of a role in the declaration order of the enumeration,
    baseline < authenticated < manager < admin. *)
Definition rank (r : UserRole) : nat :=
  match r with
  | ANONYMOUS => 0
  | AUTHENTICATED => 1
  | MANAGER => 2
  | ADMIN => 3
  end.

(** The specification's reading of "role [a] satisfies requirement [b]". *)
Definition satisfies_spec (a b : UserRole) : Prop :=
  a = b ∨ (rank b < rank a)%nat.

(** ** Account record ([User]) *)

Record User := {
  id : N;
  nickname : string;
  email : string;
  first_name : option string;
  last_name : option string;
  bio : option string;
  profile_picture_url : option string;
  linkedin_profile_url : option string;
  github_profile_url : option string;
  role : UserRole;
  is_professional : bool;
  professional_status_updated_at : option datetime;
  last_login_at : option datetime;
  failed_login_attempts : Z;
  is_locked : bool;
  created_at : datetime;
  updated_at : datetime;
  verification_token : option string;
  email_verified : bool;
  hashed_password : string
}.

(** Attribute assignments [self.f = v], one per attribute the code writes. *)

Definition set_is_locked (v : bool) (u : User) : User :=
  {| id := id u; nickname := nickname u; email := email u;
     first_name := first_name u; last_name := last_name u; bio := bio u;
     profile_picture_url := profile_picture_url u;
     linkedin_profile_url := linkedin_profile_url u;
     github_profile_url := github_profile_url u;
     role := role u; is_professional := is_professional u;
     professional_status_updated_at := professional_status_updated_at u;
     last_login_at := last_login_at u;
     failed_login_attempts := failed_login_attempts u;
     is_locked := v;
     created_at := created_at u; updated_at := updated_at u;
     verification_token := verification_token u;
     email_verified := email_verified u;
     hashed_password := hashed_password u |}.

Definition set_email_verified (v : bool) (u : User) : User :=
  {| id := id u; nickname := nickname u; email := email u;
     first_name := first_name u; last_name := last_name u; bio := bio u;
     profile_picture_url := profile_picture_url u;
     linkedin_profile_url := linkedin_profile_url u;
     github_profile_url := github_profile_url u;
     role := role u; is_professional := is_professional u;
     professional_status_updated_at := professional_status_updated_at u;
     last_login_at := last_login_at u;
     failed_login_attempts := failed_login_attempts u;
     is_locked := is_locked u;
     created_at := created_at u; updated_at := updated_at u;
     verification_token := verification_token u;
     email_verified := v;
     hashed_password := hashed_password u |}.

Definition set_is_professional (v : bool) (u : User) : User :=
  {| id := id u; nickname := nickname u; email := email u;
     first_name := first_name u; last_name := last_name u; bio := bio u;
     profile_picture_url := profile_picture_url u;
     linkedin_profile_url := linkedin_profile_url u;
     github_profile_url := github_profile_url u;
     role := role u; is_professional := v;
     professional_status_updated_at := professional_status_updated_at u;
     last_login_at := last_login_at u;
     failed_login_attempts := failed_login_attempts u;
     is_locked := is_locked u;
     created_at := created_at u; updated_at := updated_at u;
     verification_token := verification_token u;
     email_verified := email_verified u;
     hashed_password := hashed_password u |}.

Definition set_professional_status_updated_at (v : option datetime) (u : User) : User :=
  {| id := id u; nickname := nickname u; email := email u;
     first_name := first_name u; last_name := last_name u; bio := bio u;
     profile_picture_url := profile_picture_url u;
     linkedin_profile_url := linkedin_profile_url u;
     github_profile_url := github_profile_url u;
     role := role u; is_professional := is_professional u;
     professional_status_updated_at := v;
     last_login_at := last_login_at u;
     failed_login_attempts := failed_login_attempts u;
     is_locked := is_locked u;
     created_at := created_at u; updated_at := updated_at u;
     verification_token := verification_token u;
     email_verified := email_verified u;
     hashed_password := hashed_password u |}.

Definition set_failed_login_attempts (v : Z) (u : User) : User :=
  {| id := id u; nickname := nickname u; email := email u;
     first_name := first_name u; last_name := last_name u; bio := bio u;
     profile_picture_url := profile_picture_url u;
     linkedin_profile_url := linkedin_profile_url u;
     github_profile_url := github_profile_url u;
     role := role u; is_professional := is_professional u;
     professional_status_updated_at := professional_status_updated_at u;
     last_login_at := last_login_at u;
     failed_login_attempts := v;
     is_locked := is_locked u;
     created_at := created_at u; updated_at := updated_at u;
     verification_token := verification_token u;
     email_verified := email_verified u;
     hashed_password := hashed_password u |}.

Definition set_last_login_at (v : option datetime) (u : User) : User :=
  {| id := id u; nickname := nickname u; email := email u;
     first_name := first_name u; last_name := last_name u; bio := bio u;
     profile_picture_url := profile_picture_url u;
     linkedin_profile_url := linkedin_profile_url u;
     github_profile_url := github_profile_url u;
     role := role u; is_professional := is_professional u;
     professional_status_updated_at := professional_status_updated_at u;
     last_login_at := v;
     failed_login_attempts := failed_login_attempts u;
     is_locked := is_locked u;
     created_at := created_at u; updated_at := updated_at u;
     verification_token := verification_token u;
     email_verified := email_verified u;
     hashed_password := hashed_password u |}.

(** The methods of [User], in source order. *)

Definition lock_account (self : User) : User :=
  set_is_locked true self.

Definition unlock_account (self : User) : User :=
  set_is_locked false self.

Definition verify_email (self : User) : User :=
  set_email_verified true self.

Definition has_role (self : User) (role_name : UserRole) : bool :=
  bool_decide (role self = role_name).

(** [func.now()] is the database clock at flush time, passed as [now]. *)
Definition update_professional_status (now : datetime) (self : User) (status : bool) : User :=
  set_professional_status_updated_at (Some now) (set_is_professional status self).

(** A record as stored when [User(...)] is given only the mandatory columns
    and the role: the column defaults fill the rest on insert. *)
Definition new_user (uid : N) (nick mail digest : string) (r : UserRole) (now : datetime) : User :=
  {| id := uid; nickname := nick; email := mail;
     first_name := None; last_name := None; bio := None;
     profile_picture_url := None; linkedin_profile_url := None;
     github_profile_url := None;
     role := r; is_professional := false;
     professional_status_updated_at := None;
     last_login_at := None;
     failed_login_attempts := 0;
     is_locked := false;
     created_at := now; updated_at := now;
     verification_token := None;
     email_verified := false;
     hashed_password := digest |}.

(** The operations the model class offers on an account record. *)
Inductive user_op :=
  | OpLock
  | OpUnlock
  | OpVerifyEmail
  | OpProfessional (now : datetime) (status : bool).

Definition apply_op (o : user_op) (u : User) : User :=
  match o with
  | OpLock => lock_account u
  | OpUnlock => unlock_account u
  | OpVerifyEmail => verify_email u
  | OpProfessional now status => update_professional_status now u status
  end.

(** The account-record invariant of the specification: a locked account
    has its counter at or above the threshold. *)
Definition lock_invariant (cfg : Settings) (u : User) : Prop :=
  is_locked u = true → max_login_attempts cfg ≤ failed_login_attempts u.

(** ** Lockout policy

    The login service that drives the counters ([attempt_login] and the
    transitions it takes) is not among the embedded modules; the model
    class, the configuration option [max_login_attempts] and the fixtures
    that build locked and open users are. *)

Inductive result (E A : Type) :=
  | Ok (a : A)
  | Err (e : E).
Arguments Ok {E A} a.
Arguments Err {E A} e.

Inductive LockoutError := AccountLocked | InvalidCredentials.

(** Modelled from the spec: the transition [record_failure] of the login
    service, absent from the sources. Only valid from Open; increments the
    counter by one and, when the new count reaches the configured maximum,
    locks the account in the same step (with [lock_account] of the model
    class). *)
Definition record_failure (cfg : Settings) (account : User) : result LockoutError User :=
  if is_locked account then Err AccountLocked
  else
    let account' :=
      set_failed_login_attempts (failed_login_attempts account + 1) account in
    if max_login_attempts cfg <=? failed_login_attempts account'
    then Ok (lock_account account')
    else Ok account'.

(** Modelled from the spec: the transition [record_success] of the login
    service, absent from the sources. Only valid from Open; resets the
    counter and stamps the last login. *)
Definition record_success (now : datetime) (account : User) : result LockoutError User :=
  if is_locked account then Err AccountLocked
  else Ok (set_last_login_at (Some now) (set_failed_login_attempts 0 account)).

(** [n] consecutive failed logins. *)
Fixpoint record_failures (cfg : Settings) (n : nat) (account : User) : result LockoutError User :=
  match n with
  | O => Ok account
  | S n' =>
      match record_failure cfg account with
      | Ok account' => record_failures cfg n' account'
      | Err e => Err e
      end
  end.

(** A call made to the credential collaborator [verify(plaintext, digest)]. *)
Inductive credential_call := VerifyCall (plaintext digest : string).

Inductive login_outcome := success | locked_failure | credential_failure.

(** Modelled from the spec: the entry point [attempt_login] of the login
    service, absent from the sources. The lock is checked first; the
    credential collaborator [verify] is consulted only for an Open account,
    and every call made to it is logged. *)
Definition attempt_login (verify : string → string → bool) (cfg : Settings)
    (now : datetime) (account : User) (plaintext : string)
  : login_outcome * User * list credential_call :=
  if is_locked account then (locked_failure, account, [])
  else
    let calls := [VerifyCall plaintext (hashed_password account)] in
    if verify plaintext (hashed_password account) then
      match record_success now account with
      | Ok account' => (success, account', calls)
      | Err _ => (locked_failure, account, calls)
      end
    else
      match record_failure cfg account with
      | Ok account' => (credential_failure, account', calls)
      | Err _ => (locked_failure, account, calls)
      end.

(** ** Python values, objects and exceptions *)

Inductive pyval :=
  | VStr (s : string)
  | VInt (n : Z)
  | VDatetime (t : datetime).

#[global] Instance pyval_eq_dec : EqDecision pyval.
Proof. solve_decision. Defined.

Abbreviation dict := (gmap string pyval).
Abbreviation loc := nat (only parsing).

(** The exception classes of the PyJWT library ([jwt.exceptions]); all of
    them derive from [jwt.PyJWTError]. *)
Inductive PyJWTError :=
  | DecodeError
  | InvalidSignatureError
  | ExpiredSignatureError
  | InvalidAlgorithmError
  | ImmatureSignatureError
  | InvalidIssuedAtError
  | InvalidAudienceError.

Inductive exn :=
  | AttributeError
  | KeyError
  | TypeError
  | OverflowError
  | UnicodeEncodeError
  | JWTError (e : PyJWTError).

Inductive outcome (A : Type) :=
  | Return (a : A)
  | Raise (e : exn).
Arguments Return {A} a.
Arguments Raise {A} e.

(** The part of the process state the token service touches: the dict
    objects, by reference, and the system clock. *)
Record world := {
  heap : gmap nat dict;
  clock : datetime
}.

Definition with_heap (h : gmap nat dict) (w : world) : world :=
  {| heap := h; clock := clock w |}.

Definition with_clock (t : datetime) (w : world) : world :=
  {| heap := heap w; clock := t |}.

(** Computations that read and write the world and may raise. *)
Definition M (A : Type) : Type := world → outcome A * world.

#[global] Instance M_ret : MRet M := λ A a w, (Return a, w).

#[global] Instance M_bind : MBind M := λ A B k m w,
  match m w with
  | (Return a, w') => k a w'
  | (Raise e, w') => (Raise e, w')
  end.

Definition raise {A} (e : exn) : M A := λ w, (Raise e, w).

(** [try: body except jwt.PyJWTError: handler]: only exceptions of the
    library's hierarchy are caught, anything else propagates. *)
Definition try_except_PyJWTError {A} (body : M A) (handler : M A) : M A :=
  λ w, match body w with
       | (Raise (JWTError _), w') => handler w'
       | r => r
       end.

(** ** Built-ins used by the token service *)

(** The dict object a reference names (Python has no dangling references;
    one that names nothing reads as the empty dict). *)
Definition deref (w : world) (d : loc) : dict := default ∅ (heap w !! d).

(** [d.copy()]: a new dict object with the same items. *)
Definition dict_copy (d : loc) : M loc :=
  λ w, let l := fresh (dom (heap w)) in
       (Return l, with_heap (<[l := deref w d]> (heap w)) w).

(** [k in d] *)
Definition dict_contains (d : loc) (k : string) : M bool :=
  λ w, (Return (bool_decide (is_Some (deref w d !! k))), w).

(** [d[k]] *)
Definition dict_getitem (d : loc) (k : string) : M pyval :=
  λ w, match deref w d !! k with
       | Some v => (Return v, w)
       | None => (Raise KeyError, w)
       end.

(** [d[k] = v] *)
Definition dict_setitem (d : loc) (k : string) (v : pyval) : M unit :=
  λ w, (Return (), with_heap (<[d := <[k := v]> (deref w d)]> (heap w)) w).

(** [d.update(other)] for a dict display [other]. *)
Definition dict_update (d : loc) (other : dict) : M unit :=
  λ w, (Return (), with_heap (<[d := other ∪ deref w d]> (heap w)) w).

Definition upper_ascii (c : ascii) : ascii :=
  let n := nat_of_ascii c in
  if (97 <=? n)%nat && (n <=? 122)%nat then ascii_of_nat (n - 32) else c.

Fixpoint upper (s : string) : string :=
  match s with
  | EmptyString => EmptyString
  | String c s' => String (upper_ascii c) (upper s')
  end.

(** [v.upper()]: only [str] has the method. *)
Definition str_upper (v : pyval) : M pyval :=
  match v with
  | VStr s => mret (VStr (upper s))
  | _ => raise AttributeError
  end.

(** [datetime.min] and [datetime.max], years 1 to 9999. *)
Definition DATETIME_MIN : Z := -62135596800 * MICROS_PER_SECOND.
Definition DATETIME_MAX : Z := 253402300799 * MICROS_PER_SECOND + 999999.

(** [timedelta.min.days] and [timedelta.max.days]. *)
Definition TIMEDELTA_MAX_DAYS : Z := 999999999.

(** [datetime.utcnow()] *)
Definition datetime_utcnow : M datetime :=
  λ w, (Return (clock w), w).

(** [timedelta(minutes=m)] *)
Definition timedelta_minutes (m : Z) : M timedelta :=
  let us := m * MICROS_PER_MINUTE in
  if Z.abs (us / MICROS_PER_DAY) <=? TIMEDELTA_MAX_DAYS
  then mret us
  else raise OverflowError.

(** [t + delta] on a datetime. *)
Definition datetime_add (t : datetime) (delta : timedelta) : M datetime :=
  let t' := t + delta in
  if (DATETIME_MIN <=? t') && (t' <=? DATETIME_MAX)
  then mret t'
  else raise OverflowError.

(** Truth value of the argument [expires_delta]: [None] and
    [timedelta(0)] are false. *)
Definition timedelta_truthy (expires_delta : option timedelta) : bool :=
  match expires_delta with
  | None => false
  | Some d => negb (d =? 0)
  end.

(** [calendar.timegm(t.utctimetuple())]: whole seconds since the epoch,
    the microseconds dropped. *)
Definition timegm (t : datetime) : Z := t / MICROS_PER_SECOND.

(** ** The PyJWT library ([jwt.encode], [jwt.decode])

    The library is an external dependency. Its compact serialisation is
    modelled by what a string parses to: a string that holds a surrogate
    code point and so has no UTF-8 encoding ([Unencodable]); a string that
    is not three base64url segments holding a JSON header and a JSON object
    payload, which the library refuses with [DecodeError] ([Malformed]); or
    a well-formed one ([Compact]). A payload is taken up to the order of its
    keys: the claims a token carries, not the order they are written in.
    The keyed signature is symbolic: a signature segment is the MAC of a
    header and payload under a key block, or some other octets. Claim
    values are JSON strings and integers; null, floats, arrays and objects,
    on which the claim checks can raise outside the library's hierarchy,
    are left out, as are headers nested beyond the recursion limit. The
    checks are those [jwt.decode] makes with its default options (release
    2.8). *)

Inductive json :=
  | JStr (s : string)
  | JInt (n : Z).

#[global] Instance json_eq_dec : EqDecision json.
Proof. solve_decision. Defined.

(** [s] without its trailing NUL characters. *)
Fixpoint rstrip_nul (s : string) : string :=
  match s with
  | EmptyString => EmptyString
  | String c s' =>
      match rstrip_nul s' with
      | EmptyString =>
          if Ascii.eqb c "000" then EmptyString else String c EmptyString
      | t => String c t
      end
  end.

(** Block size of the hash behind an HMAC algorithm, in bytes. *)
Definition block_size (alg : string) : nat :=
  if String.eqb alg "HS256" then 64%nat else 128%nat.

(** The key as HMAC uses it: a key that fits the block is padded with
    zeros up to the block size, so its trailing NULs do not count; a longer
    key is hashed first, and is kept here as it is. *)
Definition key_block (alg key : string) : string :=
  if (String.length key <=? block_size alg)%nat then rstrip_nul key else key.

Inductive signature :=
  | Tag (block alg : string) (payload : gmap string json)
  | Octets (raw : string).

#[global] Instance signature_eq_dec : EqDecision signature.
Proof. solve_decision. Defined.

(** The MAC of a header naming [alg] and of [payload] under [key]. *)
Definition Mac (key alg : string) (payload : gmap string json) : signature :=
  Tag (key_block alg key) alg payload.

Inductive token :=
  | Unencodable (raw : string)
  | Malformed (raw : string)
  | Compact (alg : string) (payload : gmap string json) (sig : signature).

(** [json.dumps] on a value: a [datetime] is not serialisable. *)
Definition json_of (v : pyval) : option json :=
  match v with
  | VStr s => Some (JStr s)
  | VInt n => Some (JInt n)
  | VDatetime _ => None
  end.

(** [json.loads] on a value. *)
Definition of_json (j : json) : pyval :=
  match j with
  | JStr s => VStr s
  | JInt n => VInt n
  end.

(** The library turns a [datetime] under a time claim into an integer. *)
Definition convert_time_claim (k : string) (d : dict) : dict :=
  match d !! k with
  | Some (VDatetime t) => <[k := VInt (timegm t)]> d
  | _ => d
  end.

Definition TIME_CLAIMS : list string := ["exp"; "iat"; "nbf"].

(** The signed serialisation of a claims mapping: time claims converted,
    the payload dumped as JSON, header and payload signed under [key]. *)
Definition jws_encode (d : dict) (key : string) (algorithm : string) : outcome token :=
  let d' := foldr convert_time_claim d TIME_CLAIMS in
  if decide (map_Forall (λ _ v, is_Some (json_of v)) d')
  then
    let body := omap json_of d' in
    Return (Compact algorithm body (Mac key algorithm body))
  else Raise TypeError.

(** [jwt.encode(payload, key, algorithm=algorithm)]; the library works on
    a copy of [payload] and leaves the caller's object alone. *)
Definition jwt_encode (payload : loc) (key : string) (algorithm : string) : M token :=
  λ w, (jws_encode (deref w payload) key algorithm, w).

Definition is_digit (c : ascii) : bool :=
  let n := nat_of_ascii c in (48 <=? n)%nat && (n <=? 57)%nat.

Fixpoint digits_value (s : string) (acc : Z) : option Z :=
  match s with
  | EmptyString => Some acc
  | String c s' =>
      if is_digit c
      then digits_value s' (10 * acc + Z.of_nat (nat_of_ascii c - 48))
      else None
  end.

(** [int(s)] on a string, for plain decimal numerals with an optional
    sign; [None] stands for [ValueError]. *)
Definition int_of_str (s : string) : option Z :=
  match s with
  | EmptyString => None
  | String c s' =>
      if Ascii.eqb c "-" then
        match s' with EmptyString => None | _ => Z.opp <$> digits_value s' 0 end
      else if Ascii.eqb c "+" then
        match s' with EmptyString => None | _ => digits_value s' 0 end
      else digits_value s 0
  end.

(** [int(v)] on a claim value. *)
Definition py_int (v : json) : option Z :=
  match v with
  | JInt n => Some n
  | JStr s => int_of_str s
  end.

(** Truth value of a claim value. *)
Definition json_truthy (v : json) : bool :=
  match v with
  | JInt n => negb (n =? 0)
  | JStr s => negb (String.eqb s "")
  end.

(** The claim checks of [jwt.decode], each giving the exception it raises,
    if any. [now] is the clock in microseconds; the library compares whole
    seconds [c] against [now / 10^6] seconds, with no leeway. *)

Definition validate_iat (payload : gmap string json) (now : datetime) : option PyJWTError :=
  match payload !! "iat" with
  | None => None
  | Some v =>
      match py_int v with
      | None => Some InvalidIssuedAtError
      | Some iat =>
          if now <? iat * MICROS_PER_SECOND then Some ImmatureSignatureError else None
      end
  end.

Definition validate_nbf (payload : gmap string json) (now : datetime) : option PyJWTError :=
  match payload !! "nbf" with
  | None => None
  | Some v =>
      match py_int v with
      | None => Some DecodeError
      | Some nbf =>
          if now <? nbf * MICROS_PER_SECOND then Some ImmatureSignatureError else None
      end
  end.

Definition validate_exp (payload : gmap string json) (now : datetime) : option PyJWTError :=
  match payload !! "exp" with
  | None => None
  | Some v =>
      match py_int v with
      | None => Some DecodeError
      | Some exp =>
          if exp * MICROS_PER_SECOND <=? now then Some ExpiredSignatureError else None
      end
  end.

(** No audience is passed to [jwt.decode]: a token that names one is refused. *)
Definition validate_aud (payload : gmap string json) : option PyJWTError :=
  match payload !! "aud" with
  | None => None
  | Some v => if json_truthy v then Some InvalidAudienceError else None
  end.

(** The first check that fails. *)
Definition first_error (checks : list (option PyJWTError)) : option PyJWTError :=
  foldr (λ c rest, match c with Some e => Some e | None => rest end) None checks.

Definition validate_claims (payload : gmap string json) (now : datetime) : option PyJWTError :=
  first_error [validate_iat payload now; validate_nbf payload now;
               validate_exp payload now; validate_aud payload].

(** Signature and claim checks on a parsed token at clock [now]. *)
Definition jws_decode (tok : token) (key : string) (algorithms : list string)
    (now : datetime) : outcome dict :=
  match tok with
  | Unencodable _ => Raise UnicodeEncodeError
  | Malformed _ => Raise (JWTError DecodeError)
  | Compact alg payload sig =>
      if bool_decide (alg ∈ algorithms) then
        if bool_decide (sig = Mac key alg payload) then
          match validate_claims payload now with
          | Some e => Raise (JWTError e)
          | None => Return (of_json <$> payload)
          end
        else Raise (JWTError InvalidSignatureError)
      else Raise (JWTError InvalidAlgorithmError)
  end.

(** [jwt.decode(token, key, algorithms=algorithms)]; the library reads the
    clock itself. *)
Definition jwt_decode (tok : token) (key : string) (algorithms : list string) : M dict :=
  λ w, (jws_decode tok key algorithms (clock w), w).

(** ** Token service ([app/services/jwt_service.py]) *)

Definition create_access_token (cfg : Settings) (data : loc)
    (expires_delta : option timedelta) : M token :=
  to_encode ← dict_copy data;
  has ← dict_contains to_encode "role";
  (if has : bool then
     r ← dict_getitem to_encode "role";
     r' ← str_upper r;
     dict_setitem to_encode "role" r'
   else mret ());;
  now ← datetime_utcnow;
  delta ← (if timedelta_truthy expires_delta
           then mret (default 0 expires_delta)
           else timedelta_minutes (access_token_expire_minutes cfg));
  expire ← datetime_add now delta;
  dict_update to_encode {["exp" := VDatetime expire]};;
  jwt_encode to_encode (jwt_secret_key cfg) (jwt_algorithm cfg).

Definition decode_token (cfg : Settings) (tok : token) : M (option dict) :=
  try_except_PyJWTError
    (decoded ← jwt_decode tok (jwt_secret_key cfg) [jwt_algorithm cfg];
     mret (Some decoded))
    (mret None).

(** ** Sample configuration and data *)

Definition sample_settings : Settings :=
  {| access_token_expire_minutes := 30;
     jwt_secret_key := "a_very_secret_key";
     jwt_algorithm := "HS256";
     max_login_attempts := 5 |}.

(** The claims mapping the callers build, [{"sub": ..., "role": ...}]. *)
Definition claims_of (sub role : string) : dict :=
  <["sub" := VStr sub]> (<["role" := VStr role]> ∅).

(** A world whose only object is the caller's mapping, at reference 0. *)
Definition world_of (d : dict) (now : datetime) : world :=
  {| heap := {[ 0%nat := d ]}; clock := now |}.

(** ** Vocabulary of the statements *)

(** The world [w] with the object at [l] set to [d]. *)
Definition alloc (l : loc) (d : dict) (w : world) : world :=
  with_heap (<[l := d]> (heap w)) w.

(** The lifetime that [expires_delta or timedelta(minutes=...)] selects;
    [None] when the configured default is no [timedelta]. *)
Definition lifetime (cfg : Settings) (expires_delta : option timedelta) : option timedelta :=
  if timedelta_truthy expires_delta then expires_delta
  else
    let us := access_token_expire_minutes cfg * MICROS_PER_MINUTE in
    if Z.abs (us / MICROS_PER_DAY) <=? TIMEDELTA_MAX_DAYS then Some us else None.

(** The mapping handed to [jwt.encode] for [{"sub": sub, "role": role}]
    and expiry instant [expire]. *)
Definition encoded_claims (sub role : string) (expire : datetime) : dict :=
  <["sub" := VStr sub]> (<["role" := VStr (upper role)]>
    (<["exp" := VDatetime expire]> ∅)).

(** The JSON payload of such a token, with expiry claim [exp] in seconds. *)
Definition token_payload (sub role : string) (exp : Z) : gmap string json :=
  <["sub" := JStr sub]> (<["role" := JStr (upper role)]>
    (<["exp" := JInt exp]> ∅)).

(** The claims a successful verification of such a token returns. *)
Definition decoded_claims (sub role : string) (exp : Z) : dict :=
  <["sub" := VStr sub]> (<["role" := VStr (upper role)]>
    (<["exp" := VInt exp]> ∅)).

(** A token signed under the configured key and algorithm. *)
Definition signed (cfg : Settings) (payload : gmap string json) : token :=
  Compact (jwt_algorithm cfg) payload
    (Mac (jwt_secret_key cfg) (jwt_algorithm cfg) payload).

(** Only the object at [l] may differ between [w0] and [w]. *)
Definition only_at (l : loc) (w0 w : world) : Prop :=
  clock w = clock w0 ∧ ∀ l', l' ≠ l → heap w !! l' = heap w0 !! l'.

(** The fixtures of the test suite: an open user, and a locked user whose
    counter stands at the configured maximum. *)
Definition user_fixture (r : UserRole) : User :=
  new_user 1 "john_doe_123" "john.doe@example.com" "$2b$12$digest" r 0.

Definition locked_user (cfg : Settings) : User :=
  set_failed_login_attempts (max_login_attempts cfg)
    (set_is_locked true (user_fixture AUTHENTICATED)).

(** ** Remaining members of the model class *)

(** [role.name], the member names of [UserRole]. *)
Definition name (r : UserRole) : string :=
  match r with
  | ANONYMOUS => "ANONYMOUS"
  | AUTHENTICATED => "AUTHENTICATED"
  | MANAGER => "MANAGER"
  | ADMIN => "ADMIN"
  end.

(** [User.__repr__] *)
Definition __repr__ (self : User) : string :=
  "<User " ++ nickname self ++ ", Role: " ++ name (role self) ++ ">".

(** ** Token fixtures of the test suite ([tests/conftest.py]) *)

(** A dict display [{...}]: a new dict object holding [items]. *)
Definition dict_display (items : dict) : M loc :=
  λ w, let l := fresh (dom (heap w)) in
       (Return l, with_heap (<[l := items]> (heap w)) w).

(** [user_token], [admin_token] and [manager_token] are this function of
    the user fixture they are given:
    [create_access_token(data={"sub": user.email, "role": user.role.name})]. *)
Definition user_token (cfg : Settings) (user : User) : M token :=
  data ← dict_display (<["sub" := VStr (email user)]>
                         (<["role" := VStr (name (role user))]> ∅));
  create_access_token cfg data None.

(** ** Further vocabulary of the statements *)

(** What the [if 'role' in to_encode] block makes of the copy. *)
Definition normalise_role (d : dict) : outcome dict :=
  match d !! "role" with
  | None => Return d
  | Some (VStr r) => Return (<["role" := VStr (upper r)]> d)
  | Some _ => Raise AttributeError
  end.

(** The value the library stores for a value found under a time claim. *)
Definition numeric_date (v : pyval) : pyval :=
  match v with
  | VDatetime t => VInt (timegm t)
  | _ => v
  end.

(** [t] is a [datetime]. *)
Definition in_datetime_range (t : Z) : bool :=
  (DATETIME_MIN <=? t) && (t <=? DATETIME_MAX).

(** [s.isascii()]: every character is below 128. On such strings
    [str.upper] only moves the letters a to z. *)
Fixpoint isascii (s : string) : bool :=
  match s with
  | EmptyString => true
  | String c s' => (nat_of_ascii c <? 128)%nat && isascii s'
  end.

(** [s'] is [s] in upper case, character by character: as long as [s],
    with each of a..z (codes 97 to 122) replaced by the character 32 codes
    below and every other character kept. *)
Definition uppercased (s s' : string) : Prop :=
  String.length s' = String.length s ∧
  ∀ i c, String.get i s = Some c →
    ∃ c', String.get i s' = Some c' ∧
          nat_of_ascii c'
          = if (97 <=? nat_of_ascii c)%nat && (nat_of_ascii c <=? 122)%nat
            then (nat_of_ascii c - 32)%nat else nat_of_ascii c.

(** ** Sample run *)

Definition sample_data : dict :=
  claims_of "john.doe@example.com" "authenticated".

(** The caller's mapping at reference 0, half a second past a whole
    second. *)
Definition sample_world : world := world_of sample_data 1700000000500000.

(** The token issued there for 15 minutes, and the world after the call. *)
Definition sample_token : token :=
  signed sample_settings
    (token_payload "john.doe@example.com" "authenticated" 1700000900).

Definition sample_world' : world :=
  alloc 1%nat
    (encoded_claims "john.doe@example.com" "authenticated" 1700000900500000)
    sample_world.

(** * Properties *)

(** ** Account record *)

Section AccountRecord.

Variable cfg : Settings.

Lemma lock_account_fields (u : User) :
  is_locked (lock_account u) = true ∧
  failed_login_attempts (lock_account u) = failed_login_attempts u.
Proof. split; reflexivity. Qed.

Lemma unlock_account_fields (u : User) :
  is_locked (unlock_account u) = false ∧
  failed_login_attempts (unlock_account u) = failed_login_attempts u.
Proof. split; reflexivity. Qed.

Lemma apply_op_counter (o : user_op) (u : User) :
  failed_login_attempts (apply_op o u) = failed_login_attempts u.
Proof. destruct o; reflexivity. Qed.

Lemma apply_op_lock_flag (o : user_op) (u : User) :
  o ≠ OpLock → is_locked (apply_op o u) = true → is_locked u = true.
Proof. destruct o; simpl; intros Hne Hl; congruence. Qed.

End AccountRecord.

(** C3, as stated, fails on the locked-user fixture: after
    [unlock_account] the flag is cleared but the counter still holds the
    configured maximum. *)
Lemma unlock_account_reset_cex :
  let u := locked_user sample_settings in
  is_locked u = true ∧
  ¬ (is_locked (unlock_account u) = false ∧
     failed_login_attempts (unlock_account u) = 0).
Proof.
  simpl. split; [reflexivity|]. intros [_ H]. vm_compute in H. discriminate H.
Qed.

(** C3 (amended): for every Locked account, [unlock_account] sets
    [is_locked] to false, restoring the Open state, and leaves
    [failed_login_attempts], like every other attribute, as it was. *)
Theorem unlock_account_clears_flag_only (u : User) :
  is_locked u = true →
  is_locked (unlock_account u) = false ∧
  failed_login_attempts (unlock_account u) = failed_login_attempts u ∧
  unlock_account u = set_is_locked false u ∧
  lock_account (unlock_account u) = u.
Proof.
  intros Hl. repeat split. destruct u; simpl in *. subst. reflexivity.
Qed.

Lemma unlock_account_clears_flag_only_witness :
  is_locked (locked_user sample_settings) = true ∧
  is_locked (unlock_account (locked_user sample_settings)) = false ∧
  failed_login_attempts (unlock_account (locked_user sample_settings)) = 5.
Proof.
  split; [reflexivity|].
  destruct (unlock_account_clears_flag_only (locked_user sample_settings))
    as (H1 & H2 & _); [reflexivity|].
  split; [exact H1 | rewrite H2; reflexivity].
Defined.

(** ** Role model *)

Lemma has_role_true (u : User) (r : UserRole) :
  has_role u r = true ↔ role u = r.
Proof. unfold has_role. apply bool_decide_eq_true. Qed.

(** C4, as stated, fails for an admin checked against the manager role:
    admin stands strictly above manager in the order, yet the check
    answers false. *)
Lemma has_role_admin_manager_cex :
  let u := user_fixture ADMIN in
  satisfies_spec (role u) MANAGER ∧ has_role u MANAGER = false.
Proof. simpl. split; [right; simpl; lia | reflexivity]. Qed.

(** C4 (amended): for every pair of roles A and B, the check
    [has_role] of an account holding A against B succeeds if and only if
    A equals B; a strictly higher position does not satisfy it, so admin
    does not satisfy manager, and authenticated does not either. *)
Theorem has_role_iff_equal (u : User) (b : UserRole) :
  (has_role u b = true ↔ role u = b) ∧
  ((rank b < rank (role u))%nat → has_role u b = false) ∧
  has_role (user_fixture ADMIN) MANAGER = false ∧
  has_role (user_fixture AUTHENTICATED) MANAGER = false ∧
  has_role (user_fixture MANAGER) MANAGER = true.
Proof.
  split; [apply has_role_true|].
  split; [|repeat split].
  intros Hlt. apply bool_decide_eq_false. intros Heq. rewrite Heq in Hlt. lia.
Qed.

(** ** Account-record invariant *)

(** C8, as stated, fails on a fresh account with threshold 5:
    [lock_account] sets the flag while the counter is 0, and
    [unlock_account] on the locked-user fixture clears the flag while the
    counter stays at 5. *)
Lemma lock_invariant_cex :
  let u := user_fixture AUTHENTICATED in
  lock_invariant sample_settings u ∧
  ¬ lock_invariant sample_settings (lock_account u) ∧
  is_locked (locked_user sample_settings) = true ∧
  is_locked (unlock_account (locked_user sample_settings)) = false ∧
  failed_login_attempts (unlock_account (locked_user sample_settings)) ≠ 0.
Proof.
  simpl. split; [intros H; discriminate H|].
  split; [|repeat split; discriminate].
  intros H. specialize (H eq_refl). vm_compute in H. apply H. reflexivity.
Qed.

(** C8 (amended): no operation of the account record writes
    [failed_login_attempts]; every operation other than [lock_account]
    preserves "locked implies counter at or above the threshold",
    [unlock_account] establishes it with the counter left as it was, and
    [lock_account] yields a state satisfying it exactly when the counter
    already is at or above the threshold. *)
Theorem account_operations_invariant (cfg : Settings) (o : user_op) (u : User) :
  failed_login_attempts (apply_op o u) = failed_login_attempts u ∧
  (o ≠ OpLock → lock_invariant cfg u → lock_invariant cfg (apply_op o u)) ∧
  lock_invariant cfg (unlock_account u) ∧
  (lock_invariant cfg (lock_account u) ↔
   max_login_attempts cfg ≤ failed_login_attempts u).
Proof.
  split; [apply apply_op_counter|].
  split.
  { intros Hne Hinv Hl. rewrite apply_op_counter.
    apply Hinv. eapply apply_op_lock_flag; eassumption. }
  split.
  { intros Hl. discriminate Hl. }
  unfold lock_invariant. simpl. split; intros H; [apply H; reflexivity | intros _; exact H].
Qed.

(** ** Lockout policy *)

Section LockoutPolicy.

Variable cfg : Settings.

(** One failed login on an Open account: the counter moves by exactly
    one, and the flag is set in the same step precisely when the new
    count has reached the maximum. *)
Lemma record_failure_open (v : User) :
  is_locked v = false →
  ∃ v', record_failure cfg v = Ok v' ∧
        failed_login_attempts v' = failed_login_attempts v + 1 ∧
        (is_locked v' = true ↔
         max_login_attempts cfg ≤ failed_login_attempts v').
Proof.
  intros Hopen. unfold record_failure. rewrite Hopen. simpl.
  destruct (Z.leb_spec (max_login_attempts cfg) (failed_login_attempts v + 1))
    as [Hle|Hlt]; eexists; (split; [reflexivity|]); simpl.
  - split; [reflexivity|]. split; [intros _; exact Hle | reflexivity].
  - split; [reflexivity|]. rewrite Hopen. split; [discriminate | lia].
Qed.

Lemma record_failure_locked (v : User) :
  is_locked v = true → record_failure cfg v = Err AccountLocked.
Proof. intros Hl. unfold record_failure. rewrite Hl. reflexivity. Qed.

Lemma record_failures_snoc (k : nat) (u : User) :
  record_failures cfg (S k) u =
  match record_failures cfg k u with
  | Ok v => record_failure cfg v
  | Err e => Err e
  end.
Proof.
  revert u. induction k as [|k IH]; intros u.
  - simpl. destruct (record_failure cfg u); reflexivity.
  - change (record_failures cfg (S (S k)) u) with
      (match record_failure cfg u with
       | Ok u' => record_failures cfg (S k) u'
       | Err e => Err e
       end).
    destruct (record_failure cfg u) as [u'|e] eqn:Hstep.
    + rewrite IH. simpl. rewrite Hstep. reflexivity.
    + simpl. rewrite Hstep. reflexivity.
Qed.

(** Fewer failures than it takes to reach the maximum leave the account
    Open: by induction on their number. *)
Lemma record_failures_below (k : nat) (u : User) :
  is_locked u = false →
  failed_login_attempts u + Z.of_nat k < max_login_attempts cfg →
  ∃ v, record_failures cfg k u = Ok v ∧
       is_locked v = false ∧
       failed_login_attempts v = failed_login_attempts u + Z.of_nat k.
Proof.
  revert u. induction k as [|k IH]; intros u Hopen Hlt.
  - exists u. repeat split; [assumption | lia].
  - destruct (record_failure_open u Hopen) as (u' & Hstep & Hcnt & Hflag).
    assert (Hopen' : is_locked u' = false).
    { destruct (is_locked u') eqn:E; [|reflexivity].
      apply proj1 in Hflag. specialize (Hflag eq_refl). lia. }
    destruct (IH u' Hopen' ltac:(lia)) as (v & Hrun & Hv & Hc).
    exists v. simpl. rewrite Hstep. repeat split; [assumption..|lia].
Qed.

(** The policy keeps "locked implies counter at or above the maximum". *)
Lemma record_failure_invariant (u v : User) :
  record_failure cfg u = Ok v → lock_invariant cfg v.
Proof.
  intros Hstep.
  destruct (is_locked u) eqn:Hu.
  - rewrite record_failure_locked in Hstep by assumption. discriminate.
  - destruct (record_failure_open u Hu) as (v' & Hstep' & _ & Hflag).
    rewrite Hstep in Hstep'. injection Hstep' as ->. exact (proj1 Hflag).
Qed.

Lemma record_success_invariant (now : datetime) (u v : User) :
  record_success now u = Ok v →
  lock_invariant cfg v ∧ failed_login_attempts v = 0.
Proof.
  unfold record_success. destruct (is_locked u) eqn:Hu; [discriminate|].
  intros [= <-]. split; [|reflexivity].
  intros Hl. simpl in Hl. congruence.
Qed.

End LockoutPolicy.

(** C1: a Locked account never authenticates. Whatever the credential
    collaborator would answer, a login attempt on a locked account is
    refused as locked without a single call to the collaborator,
    [record_success] is refused, and the account comes back as it was:
    still locked, counter unchanged. *)
Theorem locked_account_never_authenticates
    (verify : string → string → bool) (cfg : Settings) (now : datetime)
    (account : User) (plaintext : string) :
  is_locked account = true →
  attempt_login verify cfg now account plaintext = (locked_failure, account, []) ∧
  record_success now account = Err AccountLocked ∧
  record_failure cfg account = Err AccountLocked.
Proof.
  intros Hl. unfold attempt_login, record_success, record_failure.
  rewrite Hl. repeat split.
Qed.

Lemma locked_account_never_authenticates_witness :
  is_locked (locked_user sample_settings) = true ∧
  attempt_login (λ _ _, true) sample_settings 1700000000000000
    (locked_user sample_settings) "MySuperPassword$1234"
  = (locked_failure, locked_user sample_settings, []).
Proof.
  split; [reflexivity|].
  apply (locked_account_never_authenticates (λ _ _, true) sample_settings
           1700000000000000 (locked_user sample_settings) "MySuperPassword$1234").
  reflexivity.
Defined.

(** C2: on an Open account every [record_failure] adds exactly one to
    the counter and sets the lock in that same step exactly when the new
    count has reached the threshold M; from a zero counter, any number of
    failures below M, and M-1 in particular, leaves the account Open, and
    M failures leave it Locked with the counter at M. *)
Theorem record_failure_locks_at_threshold (cfg : Settings) (u : User) :
  0 < max_login_attempts cfg →
  is_locked u = false →
  failed_login_attempts u = 0 →
  (∀ v, is_locked v = false →
     ∃ v', record_failure cfg v = Ok v' ∧
           failed_login_attempts v' = failed_login_attempts v + 1 ∧
           (is_locked v' = true ↔
            max_login_attempts cfg ≤ failed_login_attempts v')) ∧
  (∀ k : nat, Z.of_nat k < max_login_attempts cfg →
     ∃ v, record_failures cfg k u = Ok v ∧
          is_locked v = false ∧ failed_login_attempts v = Z.of_nat k) ∧
  (∃ v, record_failures cfg (Z.to_nat (max_login_attempts cfg - 1)) u = Ok v ∧
        is_locked v = false ∧
        failed_login_attempts v = max_login_attempts cfg - 1) ∧
  (∃ v, record_failures cfg (Z.to_nat (max_login_attempts cfg)) u = Ok v ∧
        is_locked v = true ∧
        failed_login_attempts v = max_login_attempts cfg).
Proof.
  intros Hpos Hopen Hzero.
  assert (Hbelow : ∀ k : nat, Z.of_nat k < max_login_attempts cfg →
     ∃ v, record_failures cfg k u = Ok v ∧
          is_locked v = false ∧ failed_login_attempts v = Z.of_nat k).
  { intros k Hk.
    destruct (record_failures_below cfg k u Hopen ltac:(lia)) as (v & Hr & Hv & Hc).
    exists v. repeat split; [assumption..|lia]. }
  assert (Hlast : ∃ v, record_failures cfg (Z.to_nat (max_login_attempts cfg - 1)) u = Ok v ∧
        is_locked v = false ∧
        failed_login_attempts v = max_login_attempts cfg - 1).
  { destruct (Hbelow (Z.to_nat (max_login_attempts cfg - 1)) ltac:(lia))
      as (v & Hr & Hv & Hc).
    exists v. repeat split; [assumption..|lia]. }
  split; [apply record_failure_open|].
  split; [exact Hbelow|].
  split; [exact Hlast|].
  destruct Hlast as (v & Hr & Hv & Hc).
  destruct (record_failure_open cfg v Hv) as (v' & Hstep & Hcnt & Hflag).
  exists v'.
  replace (Z.to_nat (max_login_attempts cfg))
    with (S (Z.to_nat (max_login_attempts cfg - 1))) by lia.
  rewrite record_failures_snoc, Hr.
  split; [exact Hstep|]. split; [apply Hflag; lia | lia].
Qed.

Lemma record_failure_locks_at_threshold_witness :
  0 < max_login_attempts sample_settings ∧
  is_locked (user_fixture AUTHENTICATED) = false ∧
  failed_login_attempts (user_fixture AUTHENTICATED) = 0 ∧
  ∃ v, record_failures sample_settings 5 (user_fixture AUTHENTICATED) = Ok v ∧
       is_locked v = true ∧ failed_login_attempts v = 5.
Proof.
  split; [reflexivity|]. split; [reflexivity|]. split; [reflexivity|].
  destruct (record_failure_locks_at_threshold sample_settings
              (user_fixture AUTHENTICATED)) as (_ & _ & _ & H);
    [reflexivity..|exact H].
Defined.

(** ** Token service *)

Section Evaluation.

(** Running the primitives on a world whose object at [l] is known. *)

Lemma bind_return {A B} (m : M A) (k : A → M B) (w w' : world) (a : A) :
  m w = (Return a, w') → (m ≫= k) w = k a w'.
Proof. intros H. unfold mbind, M_bind. rewrite H. reflexivity. Qed.

Lemma deref_alloc (l : loc) (d : dict) (w : world) :
  deref (alloc l d w) l = d.
Proof. unfold deref, alloc. simpl. rewrite lookup_insert_eq. reflexivity. Qed.

Lemma alloc_alloc (l : loc) (d d' : dict) (w : world) :
  alloc l d' (alloc l d w) = alloc l d' w.
Proof. unfold alloc, with_heap. simpl. rewrite insert_insert_eq. reflexivity. Qed.

Lemma dict_copy_eval (data : loc) (w : world) (d : dict) :
  heap w !! data = Some d →
  dict_copy data w = (Return (fresh (dom (heap w))), alloc (fresh (dom (heap w))) d w).
Proof. intros H. unfold dict_copy, deref, alloc. rewrite H. reflexivity. Qed.

Lemma dict_contains_eval (l : loc) (k : string) (d : dict) (w : world) :
  dict_contains l k (alloc l d w)
  = (Return (bool_decide (is_Some (d !! k))), alloc l d w).
Proof. unfold dict_contains. rewrite deref_alloc. reflexivity. Qed.

Lemma dict_getitem_eval (l : loc) (k : string) (d : dict) (w : world) (v : pyval) :
  d !! k = Some v →
  dict_getitem l k (alloc l d w) = (Return v, alloc l d w).
Proof. intros H. unfold dict_getitem. rewrite deref_alloc, H. reflexivity. Qed.

Lemma dict_setitem_eval (l : loc) (k : string) (v : pyval) (d : dict) (w : world) :
  dict_setitem l k v (alloc l d w) = (Return (), alloc l (<[k := v]> d) w).
Proof.
  unfold dict_setitem. rewrite deref_alloc.
  change (with_heap (<[l := <[k := v]> d]> (heap (alloc l d w))) (alloc l d w))
    with (alloc l (<[k := v]> d) (alloc l d w)).
  rewrite alloc_alloc. reflexivity.
Qed.

Lemma dict_update_eval (l : loc) (other d : dict) (w : world) :
  dict_update l other (alloc l d w) = (Return (), alloc l (other ∪ d) w).
Proof.
  unfold dict_update. rewrite deref_alloc.
  change (with_heap (<[l := other ∪ d]> (heap (alloc l d w))) (alloc l d w))
    with (alloc l (other ∪ d) (alloc l d w)).
  rewrite alloc_alloc. reflexivity.
Qed.

Lemma jwt_encode_eval (l : loc) (key alg : string) (d : dict) (w : world) :
  jwt_encode l key alg (alloc l d w) = (jws_encode d key alg, alloc l d w).
Proof. unfold jwt_encode. rewrite deref_alloc. reflexivity. Qed.

End Evaluation.

(** Equality of two maps built from inserts over literal keys. *)
Ltac map_ext :=
  apply map_eq; intros ?;
  rewrite ?lookup_union, ?lookup_omap, ?lookup_fmap;
  repeat (rewrite lookup_insert || rewrite lookup_singleton || rewrite lookup_empty);
  repeat case_decide; simplify_eq; reflexivity.

Ltac lookup_lit :=
  repeat (rewrite lookup_insert_eq
          || (rewrite lookup_insert_ne by discriminate)
          || rewrite lookup_empty).

Section Tokens.

Variable cfg : Settings.

Lemma final_claims (sub role : string) (e : datetime) :
  {["exp" := VDatetime e]} ∪ <["role" := VStr (upper role)]> (claims_of sub role)
  = encoded_claims sub role e.
Proof. unfold encoded_claims, claims_of. map_ext. Qed.

Lemma converted_claims (sub role : string) (e : datetime) :
  foldr convert_time_claim (encoded_claims sub role e) TIME_CLAIMS
  = decoded_claims sub role (timegm e).
Proof.
  unfold encoded_claims, decoded_claims, TIME_CLAIMS. simpl foldr.
  unfold convert_time_claim at 3. lookup_lit.
  unfold convert_time_claim at 2. lookup_lit.
  unfold convert_time_claim. lookup_lit.
  map_ext.
Qed.

Lemma dumped_claims (sub role : string) (x : Z) :
  omap json_of (decoded_claims sub role x) = token_payload sub role x.
Proof.
  unfold token_payload, decoded_claims.
  rewrite !omap_insert, omap_empty. simpl. 
  map_ext.
Qed.

Lemma decoded_claims_serialisable (sub role : string) (x : Z) :
  map_Forall (λ _ v, is_Some (json_of v)) (decoded_claims sub role x).
Proof.
  unfold decoded_claims.
  repeat (apply map_Forall_insert_2; [eexists; reflexivity|]).
  apply map_Forall_empty.
Qed.

Lemma jws_encode_claims (sub role key alg : string) (e : datetime) :
  jws_encode (encoded_claims sub role e) key alg
  = Return (Compact alg (token_payload sub role (timegm e))
              (Mac key alg (token_payload sub role (timegm e)))).
Proof.
  unfold jws_encode. rewrite converted_claims.
  rewrite decide_True by apply decoded_claims_serialisable.
  rewrite dumped_claims. reflexivity.
Qed.

Lemma loaded_claims (sub role : string) (x : Z) :
  of_json <$> token_payload sub role x = decoded_claims sub role x.
Proof.
  unfold token_payload, decoded_claims.
  rewrite !fmap_insert, fmap_empty. reflexivity.
Qed.

Lemma validate_claims_payload (sub role : string) (x : Z) (now : datetime) :
  validate_claims (token_payload sub role x) now
  = if x * MICROS_PER_SECOND <=? now then Some ExpiredSignatureError else None.
Proof.
  unfold validate_claims, validate_iat, validate_nbf, validate_exp,
    validate_aud, token_payload.
  lookup_lit. simpl.
  destruct (x * MICROS_PER_SECOND <=? now); reflexivity.
Qed.

(** Verification of a token carrying the configured signature comes
    down to the claim checks. *)
Lemma decode_token_signed (payload : gmap string json) (w : world) :
  decode_token cfg (signed cfg payload) w
  = (match validate_claims payload (clock w) with
     | Some _ => Return None
     | None => Return (Some (of_json <$> payload))
     end, w).
Proof.
  unfold decode_token, try_except_PyJWTError, mbind, M_bind, jwt_decode,
    jws_decode, signed.
  rewrite bool_decide_eq_true_2 by apply list_elem_of_here.
  rewrite bool_decide_eq_true_2 by reflexivity.
  destruct (validate_claims payload (clock w)); reflexivity.
Qed.

Lemma normalise_role_eval (l : loc) (sub role : string) (w : world) :
  (r ← dict_getitem l "role"; r' ← str_upper r; dict_setitem l "role" r')
    (alloc l (claims_of sub role) w)
  = (Return (), alloc l (<["role" := VStr (upper role)]> (claims_of sub role)) w).
Proof.
  erewrite bind_return
    by (apply dict_getitem_eval; unfold claims_of; lookup_lit; reflexivity).
  simpl str_upper.
  erewrite bind_return by reflexivity.
  apply dict_setitem_eval.
Qed.

Lemma lifetime_eval (expires_delta : option timedelta) (T : timedelta) (w : world) :
  lifetime cfg expires_delta = Some T →
  (if timedelta_truthy expires_delta
   then mret (default 0 expires_delta)
   else timedelta_minutes (access_token_expire_minutes cfg)) w
  = (Return T, w).
Proof.
  unfold lifetime, timedelta_minutes.
  destruct (timedelta_truthy expires_delta) eqn:Ht.
  - intros ->. reflexivity.
  - simpl. destruct (_ <=? _); [|discriminate]. intros [= <-]. reflexivity.
Qed.

Lemma datetime_add_eval (t : datetime) (delta : timedelta) (w : world) :
  DATETIME_MIN ≤ t + delta ≤ DATETIME_MAX →
  datetime_add t delta w = (Return (t + delta), w).
Proof.
  intros [Hlo Hhi]. unfold datetime_add.
  rewrite (proj2 (Z.leb_le _ _) Hlo), (proj2 (Z.leb_le _ _) Hhi). reflexivity.
Qed.

(** Issuance for the mapping of a subject and a role, step by step. *)
Lemma create_access_token_eval (data : loc) (expires_delta : option timedelta)
    (w : world) (sub role : string) (T : timedelta) :
  heap w !! data = Some (claims_of sub role) →
  lifetime cfg expires_delta = Some T →
  DATETIME_MIN ≤ clock w + T ≤ DATETIME_MAX →
  create_access_token cfg data expires_delta w
  = (Return (signed cfg (token_payload sub role (timegm (clock w + T)))),
     alloc (fresh (dom (heap w))) (encoded_claims sub role (clock w + T)) w).
Proof.
  intros Hdata Hlife Hrange. unfold create_access_token.
  erewrite bind_return by (apply dict_copy_eval; exact Hdata).
  erewrite bind_return by apply dict_contains_eval.
  rewrite bool_decide_eq_true_2
    by (unfold claims_of; lookup_lit; eexists; reflexivity).
  erewrite bind_return by apply normalise_role_eval.
  erewrite bind_return by reflexivity.
  erewrite bind_return by (apply lifetime_eval; exact Hlife).
  erewrite bind_return by (apply datetime_add_eval; exact Hrange).
  erewrite bind_return by apply dict_update_eval.
  rewrite final_claims, jwt_encode_eval, jws_encode_claims. reflexivity.
Qed.
End Tokens.

(** ** Frame of issuance *)

Section Frame.

Variable P : world → Prop.

Lemma bind_preserves {A B} (m : M A) (k : A → M B) :
  (∀ w, P w → P (m w).2) →
  (∀ a w, P w → P (k a w).2) →
  ∀ w, P w → P ((m ≫= k) w).2.
Proof.
  intros Hm Hk w Hw. unfold mbind, M_bind.
  specialize (Hm w Hw). destruct (m w) as [[a|e] w']; simpl in *.
  - apply Hk, Hm.
  - exact Hm.
Qed.

Lemma ret_preserves {A} (a : A) (w : world) : P w → P ((mret a : M A) w).2.
Proof. intros H. exact H. Qed.

End Frame.

Lemma only_at_refl (l : loc) (w : world) : only_at l w w.
Proof. split; [reflexivity | intros; reflexivity]. Qed.

Lemma only_at_alloc (l : loc) (d : dict) (w0 w : world) :
  only_at l w0 w → only_at l w0 (alloc l d w).
Proof.
  intros [Hc Hh]. split; [exact Hc|].
  intros l' Hne. unfold alloc. simpl.
  rewrite lookup_insert_ne by congruence. apply Hh, Hne.
Qed.

Lemma normalise_role_preserves (l : loc) (w0 w : world) :
  only_at l w0 w →
  only_at l w0
    ((r ← dict_getitem l "role"; r' ← str_upper r; dict_setitem l "role" r') w).2.
Proof.
  revert w. apply bind_preserves.
  - intros w Hw. unfold dict_getitem. destruct (deref w l !! "role"); exact Hw.
  - intros r. apply bind_preserves.
    + intros w Hw. destruct r; exact Hw.
    + intros r' w Hw. apply (only_at_alloc l _ w0 w Hw).
Qed.

(** Whatever issuance does after the copy, it does to the copy. *)
Lemma create_access_token_only_at (cfg : Settings) (data : loc)
    (expires_delta : option timedelta) (w : world) :
  only_at (fresh (dom (heap w))) w
    (create_access_token cfg data expires_delta w).2.
Proof.
  unfold create_access_token.
  set (l := fresh (dom (heap w))).
  unfold mbind at 1. unfold M_bind at 1.
  change (dict_copy data w) with (Return l, alloc l (deref w data) w).
  cbv iota beta.
  generalize (only_at_alloc l (deref w data) w w (only_at_refl l w)).
  generalize (alloc l (deref w data) w). 
  apply bind_preserves; [intros w1 H1; exact H1|]. intros has.
  apply bind_preserves.
  { destruct has; [apply normalise_role_preserves | apply ret_preserves]. }
  intros _. apply bind_preserves; [intros w1 H1; exact H1|]. intros now.
  apply bind_preserves.
  { intros w1 H1. destruct (timedelta_truthy expires_delta); [exact H1|].
    unfold timedelta_minutes. destruct (_ <=? _); exact H1. }
  intros delta. apply bind_preserves.
  { intros w1 H1. unfold datetime_add. destruct (_ && _); exact H1. }
  intros expire. apply bind_preserves.
  { intros w1 H1. apply (only_at_alloc l _ w w1 H1). }
  intros _ w1 H1. exact H1.
Qed.

(** C9: issuance leaves the caller's mapping unchanged. The object the
    caller passed, and every other object that existed before the call,
    holds the same items afterwards, whether the call returned a token or
    raised; the role normalisation and the expiry are written to a copy
    at a fresh reference, and the clock is only read. *)
Theorem create_access_token_leaves_data (cfg : Settings) (data : loc)
    (expires_delta : option timedelta) (w : world) (d : dict) :
  heap w !! data = Some d →
  let w' := (create_access_token cfg data expires_delta w).2 in
  heap w' !! data = Some d ∧
  (∀ l, l ∈ dom (heap w) → heap w' !! l = heap w !! l) ∧
  clock w' = clock w.
Proof.
  intros Hdata w'.
  destruct (create_access_token_only_at cfg data expires_delta w) as [Hc Hh].
  assert (Hold : ∀ l, l ∈ dom (heap w) → heap w' !! l = heap w !! l).
  { intros l Hl. apply Hh. intros ->. exact (is_fresh (dom (heap w)) Hl). }
  split; [|split; [exact Hold | exact Hc]].
  rewrite Hold, Hdata; [reflexivity|].
  apply elem_of_dom. exists d. exact Hdata.
Qed.

Lemma create_access_token_leaves_data_witness :
  let d := claims_of "john.doe@example.com" "authenticated" in
  let w := world_of d 1700000000500000 in
  heap w !! 0%nat = Some d ∧
  heap (create_access_token sample_settings 0%nat (Some 900000000) w).2 !! 0%nat
  = Some d.
Proof.
  intros d w. split; [reflexivity|].
  exact (proj1 (create_access_token_leaves_data sample_settings 0%nat
                  (Some 900000000) w d eq_refl)).
Defined.

(** ** Expiry *)

Section Expiry.

Variable cfg : Settings.

Lemma timegm_bounds (t : datetime) :
  t - MICROS_PER_SECOND < timegm t * MICROS_PER_SECOND ≤ t.
Proof.
  unfold timegm, MICROS_PER_SECOND.
  pose proof (Z.div_mod t 1000000 ltac:(lia)).
  pose proof (Z.mod_pos_bound t 1000000 ltac:(lia)). lia.
Qed.

Lemma timegm_whole (t : datetime) :
  t mod MICROS_PER_SECOND = 0 → timegm t * MICROS_PER_SECOND = t.
Proof.
  unfold timegm, MICROS_PER_SECOND. intros Hmod.
  pose proof (Z.div_mod t 1000000 ltac:(lia)). lia.
Qed.

(** Verification of an issued token before its expiry claim. *)
Lemma decode_token_fresh (sub role : string) (exp : Z) (w : world) :
  clock w < exp * MICROS_PER_SECOND →
  decode_token cfg (signed cfg (token_payload sub role exp)) w
  = (Return (Some (decoded_claims sub role exp)), w).
Proof.
  intros Hlt. rewrite decode_token_signed, validate_claims_payload.
  rewrite (proj2 (Z.leb_gt _ _) Hlt), loaded_claims. reflexivity.
Qed.

(** Verification of an issued token at or after its expiry claim. *)
Lemma decode_token_expired (sub role : string) (exp : Z) (w : world) :
  exp * MICROS_PER_SECOND ≤ clock w →
  (jwt_decode (signed cfg (token_payload sub role exp))
     (jwt_secret_key cfg) [jwt_algorithm cfg] w).1
  = Raise (JWTError ExpiredSignatureError) ∧
  decode_token cfg (signed cfg (token_payload sub role exp)) w
  = (Return None, w).
Proof.
  intros Hle. split.
  - unfold jwt_decode, jws_decode, signed. simpl.
    rewrite bool_decide_eq_true_2 by apply list_elem_of_here.
    rewrite bool_decide_eq_true_2 by reflexivity.
    rewrite validate_claims_payload, (proj2 (Z.leb_le _ _) Hle). reflexivity.
  - rewrite decode_token_signed, validate_claims_payload.
    rewrite (proj2 (Z.leb_le _ _) Hle). reflexivity.
Qed.

End Expiry.

(** C5, as stated, fails for a token issued half a second past a whole
    second with a lifetime of 15 minutes: 0.3 s before issuance time plus
    lifetime, the token is already refused, because its expiry claim holds
    whole seconds. *)
Lemma expiry_before_nominal_cex :
  let w := world_of (claims_of "john.doe@example.com" "authenticated")
             1700000000500000 in
  let T := 900000000 in
  let now := 1700000900200000 in
  ∃ tok w',
    create_access_token sample_settings 0%nat (Some T) w = (Return tok, w') ∧
    now < clock w + T ∧
    decode_token sample_settings tok (with_clock now w')
    = (Return None, with_clock now w').
Proof.
  intros w T now. eexists. eexists. split.
  - apply (create_access_token_eval sample_settings 0%nat (Some T) w
             "john.doe@example.com" "authenticated" T);
      [reflexivity | reflexivity |].
    unfold DATETIME_MIN, DATETIME_MAX, MICROS_PER_SECOND, T. simpl. lia.
  - split; [unfold now, T; simpl; lia|].
    apply decode_token_expired. simpl. unfold now. discriminate.
Qed.

(** C5 (amended): a token issued at time t0 with a non-zero lifetime T
    carries as expiry claim t0 + T cut down to whole seconds, at most
    t0 + T and less than a second below it. Verification succeeds at
    every instant strictly before that expiry claim and fails with expiry
    at every instant at or after it. Hence it fails at every instant at or
    after t0 + T; it succeeds at every instant strictly before t0 + T when
    t0 + T falls on a whole second, and, for a lifetime of whole seconds,
    at every whole number of seconds after t0 that is less than T. *)
Theorem token_expiry_boundary (cfg : Settings) (data : loc) (w : world)
    (sub role : string) (T : timedelta) :
  heap w !! data = Some (claims_of sub role) →
  T ≠ 0 →
  DATETIME_MIN ≤ clock w + T ≤ DATETIME_MAX →
  ∃ tok w',
    create_access_token cfg data (Some T) w = (Return tok, w') ∧
    let exp := timegm (clock w + T) in
    let accepted now :=
      decode_token cfg tok (with_clock now w')
      = (Return (Some (decoded_claims sub role exp)), with_clock now w') in
    let refused now :=
      (jwt_decode tok (jwt_secret_key cfg) [jwt_algorithm cfg]
         (with_clock now w')).1 = Raise (JWTError ExpiredSignatureError) ∧
      decode_token cfg tok (with_clock now w') = (Return None, with_clock now w') in
    clock w + T - MICROS_PER_SECOND < exp * MICROS_PER_SECOND ≤ clock w + T ∧
    (∀ now, now < exp * MICROS_PER_SECOND → accepted now) ∧
    (∀ now, exp * MICROS_PER_SECOND ≤ now → refused now) ∧
    (∀ now, clock w + T ≤ now → refused now) ∧
    (∀ now, (clock w + T) mod MICROS_PER_SECOND = 0 →
            now < clock w + T → accepted now) ∧
    (∀ d, T mod MICROS_PER_SECOND = 0 → d mod MICROS_PER_SECOND = 0 →
          d < T → accepted (clock w + d)).
Proof.
  intros Hdata HT Hrange.
  assert (Hlife : lifetime cfg (Some T) = Some T).
  { unfold lifetime. simpl. rewrite (proj2 (Z.eqb_neq _ _) HT). reflexivity. }
  eexists. eexists.
  split; [apply (create_access_token_eval cfg data (Some T) w sub role T);
          assumption|].
  pose proof (timegm_bounds (clock w + T)) as Hb.
  cbv zeta. split; [exact Hb|].
  split; [intros now Hnow; apply decode_token_fresh; exact Hnow|].
  split; [intros now Hnow; apply decode_token_expired; exact Hnow|].
  split; [intros now Hnow; apply decode_token_expired; simpl; lia|].
  split.
  - intros now Hmod Hnow. apply decode_token_fresh. simpl.
    rewrite timegm_whole by exact Hmod. exact Hnow.
  - intros d HTmod Hdmod Hd. apply decode_token_fresh. simpl.
    unfold MICROS_PER_SECOND in *.
    pose proof (Z.div_mod T 1000000 ltac:(lia)).
    pose proof (Z.div_mod d 1000000 ltac:(lia)). lia.
Qed.

Lemma token_expiry_boundary_witness :
  let w := world_of (claims_of "john.doe@example.com" "authenticated")
             1700000000500000 in
  heap w !! 0%nat = Some (claims_of "john.doe@example.com" "authenticated") ∧
  900000000 ≠ 0 ∧
  DATETIME_MIN ≤ clock w + 900000000 ≤ DATETIME_MAX ∧
  ∃ tok w',
    create_access_token sample_settings 0%nat (Some 900000000) w = (Return tok, w') ∧
    decode_token sample_settings tok (with_clock (clock w + 899000000) w')
    = (Return (Some (decoded_claims "john.doe@example.com" "authenticated"
                       1700000900)),
       with_clock (clock w + 899000000) w') ∧
    decode_token sample_settings tok (with_clock (clock w + 900000000) w')
    = (Return None, with_clock (clock w + 900000000) w').
Proof.
  intros w.
  assert (Hr : DATETIME_MIN ≤ clock w + 900000000 ≤ DATETIME_MAX).
  { unfold DATETIME_MIN, DATETIME_MAX, MICROS_PER_SECOND. simpl. lia. }
  split; [reflexivity|]. split; [discriminate|]. split; [exact Hr|].
  destruct (token_expiry_boundary sample_settings 0%nat w
              "john.doe@example.com" "authenticated" 900000000
              eq_refl ltac:(discriminate) Hr)
    as (tok & w' & Hissue & _ & _ & _ & Hafter & _ & Hsec).
  exists tok, w'. split; [exact Hissue|]. split.
  - exact (Hsec 899000000 eq_refl eq_refl eq_refl).
  - apply Hafter. lia.
Defined.

(** ** Upper case *)

Lemma upper_length (s : string) : String.length (upper s) = String.length s.
Proof. induction s as [|c s IH]; [reflexivity|]. simpl. rewrite IH. reflexivity. Qed.

Lemma upper_ascii_code (c : ascii) :
  nat_of_ascii (upper_ascii c)
  = if (97 <=? nat_of_ascii c)%nat && (nat_of_ascii c <=? 122)%nat
    then (nat_of_ascii c - 32)%nat else nat_of_ascii c.
Proof.
  unfold upper_ascii.
  destruct ((97 <=? nat_of_ascii c)%nat && (nat_of_ascii c <=? 122)%nat) eqn:E;
    [|reflexivity].
  apply andb_true_iff in E as [_ Hhi%Nat.leb_le].
  apply nat_ascii_embedding. lia.
Qed.

(** [upper] does what upper-casing means, character by character. *)
Lemma upper_uppercased (s : string) : uppercased s (upper s).
Proof.
  split; [apply upper_length|].
  induction s as [|c s IH]; intros i c0 Hget; [discriminate Hget|].
  destruct i as [|i]; simpl in *.
  - injection Hget as <-. eexists. split; [reflexivity|]. apply upper_ascii_code.
  - apply IH. exact Hget.
Qed.

(** ** Round trip *)

(** C6, as stated, fails for the token issued half a second past a whole
    second for 15 minutes: 0.3 s before issuance time plus lifetime,
    still before expiry as the claim counts it, verification gives no
    claims back. *)
Lemma roundtrip_before_nominal_expiry_cex :
  let now := 1700000900200000 in
  ∃ tok w',
    create_access_token sample_settings 0%nat (Some 900000000) sample_world
    = (Return tok, w') ∧
    now < clock sample_world + 900000000 ∧
    ¬ ∃ claims,
        decode_token sample_settings tok (with_clock now w')
        = (Return (Some claims), with_clock now w').
Proof.
  intros now. eexists. eexists. split.
  - apply (create_access_token_eval sample_settings 0%nat (Some 900000000)
             sample_world "john.doe@example.com" "authenticated" 900000000);
      [reflexivity | reflexivity |].
    unfold DATETIME_MIN, DATETIME_MAX, MICROS_PER_SECOND. simpl. lia.
  - split; [reflexivity|].
    intros [claims Hdec].
    rewrite (proj2 (decode_token_expired sample_settings
                      "john.doe@example.com" "authenticated" _ _
                      ltac:(simpl; unfold now; discriminate))) in Hdec.
    discriminate Hdec.
Qed.

(** C6 (amended): for every subject and every ASCII role, the token
    issued for them is returned by issuance, and verifying it at any
    instant before its expiry claim succeeds and gives back exactly the
    original subject, the role in upper case (as long as the role, each of
    a..z replaced by A..Z and every other character kept) and the expiry
    claim, nothing else. The expiry claim is issuance time plus lifetime cut
    down to whole seconds, less than a second below issuance time plus
    lifetime. *)
Theorem issue_verify_roundtrip (cfg : Settings) (data : loc)
    (expires_delta : option timedelta) (w : world) (sub role : string)
    (T : timedelta) (now : datetime) :
  heap w !! data = Some (claims_of sub role) →
  isascii role = true →
  lifetime cfg expires_delta = Some T →
  DATETIME_MIN ≤ clock w + T ≤ DATETIME_MAX →
  now < timegm (clock w + T) * MICROS_PER_SECOND →
  ∃ tok w' claims role',
    create_access_token cfg data expires_delta w = (Return tok, w') ∧
    decode_token cfg tok (with_clock now w')
    = (Return (Some claims), with_clock now w') ∧
    claims !! "sub" = Some (VStr sub) ∧
    claims !! "role" = Some (VStr role') ∧
    role' = upper role ∧
    uppercased role role' ∧
    claims !! "exp" = Some (VInt (timegm (clock w + T))) ∧
    dom claims = {["sub"; "role"; "exp"]} ∧
    clock w + T - MICROS_PER_SECOND
      < timegm (clock w + T) * MICROS_PER_SECOND ≤ clock w + T.
Proof.
  intros Hdata _ Hlife Hrange Hnow.
  eexists. eexists. exists (decoded_claims sub role (timegm (clock w + T))).
  exists (upper role).
  split; [apply (create_access_token_eval cfg data expires_delta w sub role T);
          assumption|].
  split; [apply decode_token_fresh; exact Hnow|].
  unfold decoded_claims. split; [lookup_lit; reflexivity|].
  split; [lookup_lit; reflexivity|].
  split; [reflexivity|].
  split; [apply upper_uppercased|].
  split; [lookup_lit; reflexivity|].
  split; [|apply timegm_bounds].
  rewrite !dom_insert_L, dom_empty_L. set_solver.
Qed.

Lemma issue_verify_roundtrip_witness :
  let w := world_of (claims_of "manager@example.com" "Manager")
             1700000000500000 in
  isascii "Manager" = true ∧
  ∃ tok w' claims,
    create_access_token sample_settings 0%nat (Some 900000000) w = (Return tok, w') ∧
    decode_token sample_settings tok (with_clock 1700000899500000 w')
    = (Return (Some claims), with_clock 1700000899500000 w') ∧
    claims !! "sub" = Some (VStr "manager@example.com") ∧
    claims !! "role" = Some (VStr "MANAGER") ∧
    uppercased "Manager" "MANAGER".
Proof.
  intros w. split; [reflexivity|].
  assert (Hr : DATETIME_MIN ≤ clock w + 900000000 ≤ DATETIME_MAX).
  { unfold DATETIME_MIN, DATETIME_MAX, MICROS_PER_SECOND. simpl. lia. }
  destruct (issue_verify_roundtrip sample_settings 0%nat (Some 900000000) w
              "manager@example.com" "Manager" 900000000
              1700000899500000 eq_refl eq_refl eq_refl Hr eq_refl)
    as (tok & w' & claims & role' & Hissue & Hdec & Hsub & Hrole & -> & Hup & _).
  exists tok, w', claims.
  split; [exact Hissue|]. split; [exact Hdec|]. split; [exact Hsub|].
  split; [exact Hrole | exact Hup].
Defined.

(** ** Failure of verification *)

Section Failure.

Variable cfg : Settings.

(** What [decode_token] makes of each outcome of [jwt.decode]. *)
Lemma decode_token_by_outcome (tok : token) (w : world) :
  match (jwt_decode tok (jwt_secret_key cfg) [jwt_algorithm cfg] w).1 with
  | Return d => decode_token cfg tok w = (Return (Some d), w)
  | Raise (JWTError _) => decode_token cfg tok w = (Return None, w)
  | Raise e => decode_token cfg tok w = (Raise e, w)
  end.
Proof.
  unfold decode_token, try_except_PyJWTError, mbind, M_bind, jwt_decode.
  simpl.
  destruct (jws_decode tok (jwt_secret_key cfg) [jwt_algorithm cfg] (clock w))
    as [d|[]]; reflexivity.
Qed.

Lemma decode_token_JWTError (tok : token) (w : world) (j : PyJWTError) :
  (jwt_decode tok (jwt_secret_key cfg) [jwt_algorithm cfg] w).1
  = Raise (JWTError j) →
  decode_token cfg tok w = (Return None, w).
Proof.
  intros H. pose proof (decode_token_by_outcome tok w) as Hout.
  rewrite H in Hout. exact Hout.
Qed.

(** A payload under a signature made for another payload, or under
    octets that are no MAC, does not verify. *)
Lemma jws_decode_mismatch (payload : gmap string json) (sig : signature)
    (now : datetime) :
  sig ≠ Mac (jwt_secret_key cfg) (jwt_algorithm cfg) payload →
  jws_decode (Compact (jwt_algorithm cfg) payload sig) (jwt_secret_key cfg)
    [jwt_algorithm cfg] now
  = Raise (JWTError InvalidSignatureError).
Proof.
  intros Hsig. simpl.
  rewrite bool_decide_eq_true_2 by apply list_elem_of_here.
  rewrite bool_decide_eq_false_2 by exact Hsig. reflexivity.
Qed.

End Failure.

(** C7, as stated, fails on a token string that holds a lone surrogate
    (written here with its escape): the library raises
    [UnicodeEncodeError] when it encodes the string, the handler for
    [jwt.PyJWTError] does not catch it, and [decode_token] raises. *)
Lemma decode_token_raises_cex :
  let w := world_of ∅ 1700000000500000 in
  decode_token sample_settings (Unencodable "\ud800.a.b") w
  = (Raise UnicodeEncodeError, w).
Proof. reflexivity. Qed.

(** C7 (amended): [decode_token] returns the claims when [jwt.decode]
    returns them and the single value [None] when [jwt.decode] raises an
    exception of the library's hierarchy; an exception outside that
    hierarchy is not caught. A malformed encoding, a signature that was
    made for another payload or is no MAC at all, and the expiry of a token
    of this service raise three different library exceptions, and the
    caller gets the same [None] for each, with the world as it was. *)
Theorem decode_token_catches_library_errors (cfg : Settings) (tok : token)
    (w : world) :
  match (jwt_decode tok (jwt_secret_key cfg) [jwt_algorithm cfg] w).1 with
  | Return d => decode_token cfg tok w = (Return (Some d), w)
  | Raise (JWTError _) => decode_token cfg tok w = (Return None, w)
  | Raise e => decode_token cfg tok w = (Raise e, w)
  end ∧
  (∀ raw,
     (jwt_decode (Malformed raw) (jwt_secret_key cfg) [jwt_algorithm cfg] w).1
     = Raise (JWTError DecodeError) ∧
     decode_token cfg (Malformed raw) w = (Return None, w)) ∧
  (∀ payload payload' raw sig,
     payload' ≠ payload →
     sig = Mac (jwt_secret_key cfg) (jwt_algorithm cfg) payload' ∨
     sig = Octets raw →
     (jwt_decode (Compact (jwt_algorithm cfg) payload sig)
        (jwt_secret_key cfg) [jwt_algorithm cfg] w).1
     = Raise (JWTError InvalidSignatureError) ∧
     decode_token cfg (Compact (jwt_algorithm cfg) payload sig) w
     = (Return None, w)) ∧
  (∀ sub role exp,
     exp * MICROS_PER_SECOND ≤ clock w →
     (jwt_decode (signed cfg (token_payload sub role exp))
        (jwt_secret_key cfg) [jwt_algorithm cfg] w).1
     = Raise (JWTError ExpiredSignatureError) ∧
     decode_token cfg (signed cfg (token_payload sub role exp)) w
     = (Return None, w)).
Proof.
  split; [apply decode_token_by_outcome|].
  split.
  { intros raw. split; [reflexivity|].
    exact (decode_token_JWTError cfg (Malformed raw) w DecodeError eq_refl). }
  split; [|intros sub role exp Hexp; apply decode_token_expired; exact Hexp].
  intros payload payload' raw sig Hne Hsig.
  assert (H : jws_decode (Compact (jwt_algorithm cfg) payload sig)
                (jwt_secret_key cfg) [jwt_algorithm cfg] (clock w)
              = Raise (JWTError InvalidSignatureError)).
  { apply jws_decode_mismatch.
    destruct Hsig as [-> | ->]; [|discriminate].
    unfold Mac. intros [= Heq]. exact (Hne Heq). }
  split; [exact H|].
  exact (decode_token_JWTError cfg _ w InvalidSignatureError H).
Qed.

(** The three causes on concrete tokens, at a clock of 1700000900.2 s: a
    string that is no token, a token whose signature was made under another
    key, and a token of this service that expired 0.2 s earlier. *)
Example decode_token_failures :
  let w := world_of ∅ 1700000900200000 in
  let payload := token_payload "john.doe@example.com" "authenticated" 1700000900 in
  decode_token sample_settings (Malformed "not.a.token") w = (Return None, w) ∧
  decode_token sample_settings
    (Compact "HS256" payload (Mac "another_key" "HS256" payload)) w
  = (Return None, w) ∧
  decode_token sample_settings (signed sample_settings payload) w
  = (Return None, w).
Proof.
  intros w payload. split; [reflexivity|]. split.
  - reflexivity.
  - apply decode_token_expired. discriminate.
Qed.

(** ** Zero lifetime *)

Lemma default_lifetime (cfg : Settings) :
  0 ≤ access_token_expire_minutes cfg * MICROS_PER_MINUTE
    ≤ DATETIME_MAX - DATETIME_MIN →
  lifetime cfg (Some 0) = Some (access_token_expire_minutes cfg * MICROS_PER_MINUTE).
Proof.
  intros [Hlo Hhi]. unfold lifetime. simpl.
  set (us := access_token_expire_minutes cfg * MICROS_PER_MINUTE) in *.
  assert (Hd : 0 ≤ us / MICROS_PER_DAY ≤ TIMEDELTA_MAX_DAYS).
  { split; [apply Z.div_pos; [exact Hlo | reflexivity]|].
    apply Z.div_le_upper_bound; [reflexivity|].
    etransitivity; [exact Hhi|]. vm_compute. discriminate. }
  rewrite Z.abs_eq by apply Hd.
  rewrite (proj2 (Z.leb_le _ _) (proj2 Hd)). reflexivity.
Qed.

(** C10: a zero-length [expires_delta] is treated as no [expires_delta]:
    the call does exactly what the call without the argument does, so the
    expiry comes from the configured default lifetime. For the mapping of
    a subject and a role and a configured lifetime of at least a minute,
    the expiry claim is the issuance time plus that lifetime, in whole
    seconds, and the token verifies at the very instant of issuance: it is
    neither expired nor of zero lifetime. *)
Theorem zero_delta_uses_default (cfg : Settings) (data : loc) (w : world) :
  create_access_token cfg data (Some 0) w = create_access_token cfg data None w ∧
  ∀ sub role,
    heap w !! data = Some (claims_of sub role) →
    1 ≤ access_token_expire_minutes cfg →
    DATETIME_MIN ≤ clock w →
    clock w + access_token_expire_minutes cfg * MICROS_PER_MINUTE ≤ DATETIME_MAX →
    let exp := timegm (clock w + access_token_expire_minutes cfg * MICROS_PER_MINUTE) in
    ∃ w',
      create_access_token cfg data (Some 0) w
      = (Return (signed cfg (token_payload sub role exp)), w') ∧
      clock w < exp * MICROS_PER_SECOND ∧
      decode_token cfg (signed cfg (token_payload sub role exp))
        (with_clock (clock w) w')
      = (Return (Some (decoded_claims sub role exp)), with_clock (clock w) w').
Proof.
  split; [reflexivity|].
  intros sub role Hdata Hmin Hlo Hhi exp.
  assert (Hus : 60000000 ≤ access_token_expire_minutes cfg * MICROS_PER_MINUTE).
  { unfold MICROS_PER_MINUTE, MICROS_PER_SECOND. lia. }
  assert (Hexp : clock w < exp * MICROS_PER_SECOND).
  { pose proof (timegm_bounds
      (clock w + access_token_expire_minutes cfg * MICROS_PER_MINUTE)) as Hb.
    unfold exp. unfold MICROS_PER_SECOND in *. lia. }
  eexists. split; [|split; [exact Hexp|]].
  - apply (create_access_token_eval cfg data (Some 0) w sub role
             (access_token_expire_minutes cfg * MICROS_PER_MINUTE)).
    + exact Hdata.
    + apply default_lifetime. lia.
    + lia.
  - apply decode_token_fresh. exact Hexp.
Qed.

Lemma zero_delta_uses_default_witness :
  let w := world_of (claims_of "john.doe@example.com" "authenticated")
             1700000000500000 in
  create_access_token sample_settings 0%nat (Some 0) w
  = create_access_token sample_settings 0%nat None w ∧
  ∃ w',
    create_access_token sample_settings 0%nat (Some 0) w
    = (Return (signed sample_settings
                 (token_payload "john.doe@example.com" "authenticated"
                    1700001800)), w').
Proof.
  intros w.
  destruct (zero_delta_uses_default sample_settings 0%nat w) as [Heq Hexp].
  split; [exact Heq|].
  destruct (Hexp "john.doe@example.com" "authenticated" eq_refl
              ltac:(discriminate) ltac:(discriminate) ltac:(discriminate))
    as (w' & Hissue & _).
  exists w'. exact Hissue.
Defined.

(** * Further properties *)

(** ** Issuance on any claims mapping *)

Section Issuance.

Variable cfg : Settings.

Lemma bind_raise {A B} (m : M A) (k : A → M B) (w w' : world) (e : exn) :
  m w = (Raise e, w') → (m ≫= k) w = (Raise e, w').
Proof. intros H. unfold mbind, M_bind. rewrite H. reflexivity. Qed.

(** The [if 'role' in to_encode] block, on the copy. *)
Lemma role_block_eval (l : loc) (d : dict) (w : world) :
  (if bool_decide (is_Some (d !! "role")) then
     r ← dict_getitem l "role"; r' ← str_upper r; dict_setitem l "role" r'
   else mret ()) (alloc l d w)
  = match normalise_role d with
    | Return d' => (Return (), alloc l d' w)
    | Raise e => (Raise e, alloc l d w)
    end.
Proof.
  unfold normalise_role. destruct (d !! "role") as [v|] eqn:Hrole.
  - rewrite bool_decide_eq_true_2 by (eexists; reflexivity).
    erewrite bind_return by (apply dict_getitem_eval; exact Hrole).
    destruct v as [r| |]; simpl str_upper.
    + erewrite bind_return by reflexivity. apply dict_setitem_eval.
    + apply bind_raise. reflexivity.
    + apply bind_raise. reflexivity.
  - rewrite bool_decide_eq_false_2 by (intros [? ?]; discriminate).
    reflexivity.
Qed.

Lemma lifetime_eval_None (expires_delta : option timedelta) (w : world) :
  lifetime cfg expires_delta = None →
  (if timedelta_truthy expires_delta
   then mret (default 0 expires_delta)
   else timedelta_minutes (access_token_expire_minutes cfg)) w
  = (Raise OverflowError, w).
Proof.
  unfold lifetime, timedelta_minutes.
  destruct (timedelta_truthy expires_delta) eqn:Ht.
  - destruct expires_delta; [discriminate | discriminate].
  - simpl. destruct (_ <=? _); [discriminate|]. reflexivity.
Qed.

Lemma datetime_add_cases (t : datetime) (delta : timedelta) (w : world) :
  datetime_add t delta w
  = if in_datetime_range (t + delta) then (Return (t + delta), w)
    else (Raise OverflowError, w).
Proof.
  unfold datetime_add, in_datetime_range.
  destruct (_ && _); reflexivity.
Qed.

(** Issuance, path by path: the copy is made, the role is normalised or
    the call raises, the expiry is computed or the call raises, and the
    mapping with the expiry goes to the library. *)
Lemma create_access_token_cases (data : loc) (expires_delta : option timedelta)
    (w : world) (d : dict) :
  heap w !! data = Some d →
  create_access_token cfg data expires_delta w
  = let l := fresh (dom (heap w)) in
    match normalise_role d with
    | Raise e => (Raise e, alloc l d w)
    | Return d1 =>
        match lifetime cfg expires_delta with
        | None => (Raise OverflowError, alloc l d1 w)
        | Some T =>
            if in_datetime_range (clock w + T) then
              let d2 := <["exp" := VDatetime (clock w + T)]> d1 in
              (jws_encode d2 (jwt_secret_key cfg) (jwt_algorithm cfg),
               alloc l d2 w)
            else (Raise OverflowError, alloc l d1 w)
        end
    end.
Proof.
  intros Hdata. cbv zeta. unfold create_access_token.
  erewrite bind_return by (apply dict_copy_eval; exact Hdata).
  set (l := fresh (dom (heap w))).
  erewrite bind_return by apply dict_contains_eval.
  pose proof (role_block_eval l d w) as Hblock.
  destruct (normalise_role d) as [d1|e].
  - erewrite bind_return by exact Hblock.
    erewrite bind_return by reflexivity.
    destruct (lifetime cfg expires_delta) as [T|] eqn:Hlife.
    + erewrite bind_return by (apply lifetime_eval; exact Hlife).
      pose proof (datetime_add_cases (clock w) T (alloc l d1 w)) as Hadd.
      change (clock (alloc l d1 w)) with (clock w).
      destruct (in_datetime_range (clock w + T)).
      * erewrite bind_return by exact Hadd.
        erewrite bind_return by apply dict_update_eval.
        rewrite <- insert_union_singleton_l. apply jwt_encode_eval.
      * apply bind_raise. exact Hadd.
    + apply bind_raise. apply lifetime_eval_None. exact Hlife.
  - apply bind_raise. exact Hblock.
Qed.

End Issuance.

(** ** The library's encoding of any mapping *)

Section Encoding.

Lemma time_claims_spec (k : string) :
  k ∈ TIME_CLAIMS ↔ k = "exp" ∨ k = "iat" ∨ k = "nbf".
Proof. unfold TIME_CLAIMS. rewrite !elem_of_cons, elem_of_nil. tauto. Qed.

Lemma lookup_convert_time_claim (k k' : string) (d : dict) :
  convert_time_claim k d !! k'
  = if decide (k = k') then numeric_date <$> d !! k else d !! k'.
Proof.
  unfold convert_time_claim.
  destruct (decide (k = k')) as [<-|Hne].
  - destruct (d !! k) as [[s|n|t]|] eqn:Hk;
      rewrite ?lookup_insert_eq, ?Hk; reflexivity.
  - destruct (d !! k) as [[s|n|t]|];
      rewrite ?lookup_insert_ne by exact Hne; reflexivity.
Qed.

(** A time claim is stored as a number, every other item as it is. *)
Lemma lookup_converted (d : dict) (k : string) :
  foldr convert_time_claim d TIME_CLAIMS !! k
  = if bool_decide (k ∈ TIME_CLAIMS) then numeric_date <$> d !! k else d !! k.
Proof.
  unfold TIME_CLAIMS. simpl foldr.
  rewrite !lookup_convert_time_claim.
  destruct (decide ("exp" = k)) as [<-|Hexp].
  { rewrite !decide_False by discriminate. reflexivity. }
  destruct (decide ("iat" = k)) as [<-|Hiat].
  { rewrite !decide_False by discriminate. reflexivity. }
  destruct (decide ("nbf" = k)) as [<-|Hnbf]; [reflexivity|].
  rewrite bool_decide_eq_false_2; [reflexivity|].
  rewrite time_claims_spec. intros [?|[?|?]]; congruence.
Qed.

(** What a token returned by the library holds. *)
Lemma jws_encode_Return (d : dict) (key alg : string) (tok : token) :
  jws_encode d key alg = Return tok →
  ∃ P, tok = Compact alg P (Mac key alg P) ∧
       ∀ k, P !! k = foldr convert_time_claim d TIME_CLAIMS !! k ≫= json_of.
Proof.
  unfold jws_encode. case_decide; [|discriminate].
  intros [= <-]. eexists. split; [reflexivity|].
  intros k. apply lookup_omap.
Qed.

(** A [datetime] outside the time claims is refused. *)
Lemma jws_encode_datetime (d : dict) (key alg k : string) (t : datetime) :
  d !! k = Some (VDatetime t) → k ∉ TIME_CLAIMS →
  jws_encode d key alg = Raise TypeError.
Proof.
  intros Hk Hnot. unfold jws_encode. rewrite decide_False; [reflexivity|].
  intros Hall.
  assert (Hconv : foldr convert_time_claim d TIME_CLAIMS !! k
                  = Some (VDatetime t)).
  { rewrite lookup_converted, bool_decide_eq_false_2 by exact Hnot. exact Hk. }
  destruct (Hall k _ Hconv) as [j Hj]. discriminate Hj.
Qed.

End Encoding.

(** ** What issuance puts into a token *)

Lemma normalise_role_lookup (d d1 : dict) (k : string) :
  normalise_role d = Return d1 → k ≠ "role" → d1 !! k = d !! k.
Proof.
  unfold normalise_role. intros H Hk.
  destruct (d !! "role") as [[r| |]|]; simplify_eq; [|reflexivity].
  apply lookup_insert_ne. congruence.
Qed.

Lemma normalise_role_role (d d1 : dict) :
  normalise_role d = Return d1 →
  (d !! "role" = None ∧ d1 = d) ∨
  (∃ r, d !! "role" = Some (VStr r) ∧ d1 = <["role" := VStr (upper r)]> d).
Proof.
  unfold normalise_role. intros H.
  destruct (d !! "role") as [[r| |]|]; simplify_eq; [right|left]; eauto.
Qed.

(** The token of a successful call, whatever the mapping. *)
Lemma create_access_token_Return (cfg : Settings) (data : loc)
    (expires_delta : option timedelta) (w w' : world) (d : dict) (tok : token) :
  heap w !! data = Some d →
  create_access_token cfg data expires_delta w = (Return tok, w') →
  ∃ d1 T P,
    normalise_role d = Return d1 ∧
    lifetime cfg expires_delta = Some T ∧
    in_datetime_range (clock w + T) = true ∧
    tok = signed cfg P ∧
    (∀ k, P !! k
          = foldr convert_time_claim
              (<["exp" := VDatetime (clock w + T)]> d1) TIME_CLAIMS !! k
            ≫= json_of).
Proof.
  intros Hdata. rewrite (create_access_token_cases cfg data expires_delta w d Hdata).
  cbv zeta. destruct (normalise_role d) as [d1|e]; [|discriminate].
  destruct (lifetime cfg expires_delta) as [T|]; [|discriminate].
  destruct (in_datetime_range (clock w + T)) eqn:Hr; [|discriminate].
  intros [= Henc _].
  destruct (jws_encode_Return _ _ _ _ Henc) as (P & -> & HP).
  exists d1, T, P. repeat split; assumption.
Qed.

Lemma converted_exp (d1 : dict) (e : datetime) :
  foldr convert_time_claim (<["exp" := VDatetime e]> d1) TIME_CLAIMS !! "exp"
    ≫= json_of
  = Some (JInt (timegm e)).
Proof.
  rewrite lookup_converted.
  rewrite bool_decide_eq_true_2 by (apply time_claims_spec; auto).
  rewrite lookup_insert_eq. reflexivity.
Qed.

Lemma converted_other (d1 : dict) (e : datetime) (k : string) :
  k ∉ TIME_CLAIMS →
  foldr convert_time_claim (<["exp" := VDatetime e]> d1) TIME_CLAIMS !! k
  = d1 !! k.
Proof.
  intros Htime. rewrite lookup_converted.
  rewrite bool_decide_eq_false_2 by exact Htime.
  apply lookup_insert_ne. intros <-. apply Htime, time_claims_spec. auto.
Qed.

Lemma role_not_time_claim : "role" ∉ TIME_CLAIMS.
Proof. rewrite time_claims_spec. intros [?|[?|?]]; discriminate. Qed.

(** X1: for every mapping from string keys to [str], [int] and
    [datetime] values, a token that [create_access_token] returns is signed
    under the configured key and algorithm; its [exp] claim is the clock
    plus the selected lifetime, in whole seconds; its [role] claim, for an
    ASCII role, is the caller's role in upper case (as long as the role,
    each of a..z replaced by A..Z, every other character kept), and there is
    none when the caller gave none; every other claim outside the time
    claims is the caller's value, unchanged. *)
Theorem issued_token_claims (cfg : Settings) (data : loc)
    (expires_delta : option timedelta) (w w' : world) (d : dict) (tok : token) :
  heap w !! data = Some d →
  create_access_token cfg data expires_delta w = (Return tok, w') →
  ∃ P T,
    tok = signed cfg P ∧
    lifetime cfg expires_delta = Some T ∧
    P !! "exp" = Some (JInt (timegm (clock w + T))) ∧
    (∀ r, d !! "role" = Some (VStr r) → isascii r = true →
          ∃ r', P !! "role" = Some (JStr r') ∧
                r' = upper r ∧ uppercased r r') ∧
    (d !! "role" = None → P !! "role" = None) ∧
    (∀ k, k ≠ "role" → k ∉ TIME_CLAIMS → P !! k = d !! k ≫= json_of).
Proof.
  intros Hdata Hrun.
  destruct (create_access_token_Return cfg data expires_delta w w' d tok Hdata Hrun)
    as (d1 & T & P & Hnorm & Hlife & _ & -> & HP).
  exists P, T. split; [reflexivity|]. split; [exact Hlife|].
  split; [rewrite HP; apply converted_exp|].
  assert (Hrole : P !! "role" = d1 !! "role" ≫= json_of)
    by (rewrite HP, converted_other by exact role_not_time_claim; reflexivity).
  assert (Hother : ∀ k, k ≠ "role" → k ∉ TIME_CLAIMS →
                        P !! k = d !! k ≫= json_of).
  { intros k Hk Htime. rewrite HP, converted_other by exact Htime.
    rewrite (normalise_role_lookup d d1 k Hnorm Hk). reflexivity. }
  destruct (normalise_role_role d d1 Hnorm) as [[Hnone ->]|(r & Hr & ->)].
  - split; [intros r Hr; congruence|].
    split; [intros _; rewrite Hrole, Hnone; reflexivity | exact Hother].
  - split.
    { intros r0 Hr0 _. assert (r0 = r) as -> by congruence.
      exists (upper r). rewrite Hrole, lookup_insert_eq.
      split; [reflexivity|]. split; [reflexivity | apply upper_uppercased]. }
    split; [intros Hnone; congruence | exact Hother].
Qed.

(** ** Inputs that do not matter, inputs that make issuance raise *)

Lemma heap_alloc_lookup (l : loc) (d : dict) (w : world) :
  heap (alloc l d w) !! l = Some d.
Proof. unfold alloc. simpl. apply lookup_insert_eq. Qed.

(** X2: an [exp] item in the caller's mapping has no effect on the
    claims issued, whatever its value: with it and without it the call
    raises the same exception, or returns tokens that [decode_token] treats
    alike in every world, giving the same claims or the same refusal,
    because [update] overwrites the item with the computed expiry. *)
Theorem caller_exp_ignored (cfg : Settings) (data : loc)
    (expires_delta : option timedelta) (w : world) (d : dict) (v : pyval) :
  heap w !! data = Some d →
  match (create_access_token cfg data expires_delta
           (alloc data (<["exp" := v]> d) w)).1,
        (create_access_token cfg data expires_delta w).1 with
  | Return tok1, Return tok2 =>
      ∀ cfg' w0, (decode_token cfg' tok1 w0).1 = (decode_token cfg' tok2 w0).1
  | Raise e1, Raise e2 => e1 = e2
  | _, _ => False
  end.
Proof.
  intros Hdata.
  assert (Heq : (create_access_token cfg data expires_delta
                   (alloc data (<["exp" := v]> d) w)).1
                = (create_access_token cfg data expires_delta w).1).
  { rewrite (create_access_token_cases cfg data expires_delta w d Hdata).
    rewrite (create_access_token_cases cfg data expires_delta
               (alloc data (<["exp" := v]> d) w) (<["exp" := v]> d)
               (heap_alloc_lookup _ _ _)).
    cbv zeta. change (clock (alloc data (<["exp" := v]> d) w)) with (clock w).
    unfold normalise_role. rewrite lookup_insert_ne by discriminate.
    destruct (d !! "role") as [[r| |]|]; try reflexivity;
      destruct (lifetime cfg expires_delta) as [T|]; try reflexivity;
      destruct (in_datetime_range (clock w + T)); try reflexivity; simpl.
    - rewrite (insert_insert_ne _ "role" "exp") by discriminate.
      rewrite insert_insert_eq.
      rewrite (insert_insert_ne _ "exp" "role") by discriminate. reflexivity.
    - rewrite insert_insert_eq. reflexivity. }
  rewrite Heq.
  destruct ((create_access_token cfg data expires_delta w).1) as [tok|e];
    [intros cfg' w0|]; reflexivity.
Qed.

(** X3: issuance does not see the case of the role: two role strings
    with the same upper-case form give the same token (or the same
    exception) at the same clock. *)
Theorem role_case_insensitive (cfg : Settings) (data : loc)
    (expires_delta : option timedelta) (w : world) (d : dict) (r1 r2 : string) :
  heap w !! data = Some d →
  d !! "role" = Some (VStr r1) →
  upper r1 = upper r2 →
  (create_access_token cfg data expires_delta
     (alloc data (<["role" := VStr r2]> d) w)).1
  = (create_access_token cfg data expires_delta w).1.
Proof.
  intros Hdata Hrole Hupper.
  rewrite (create_access_token_cases cfg data expires_delta w d Hdata).
  rewrite (create_access_token_cases cfg data expires_delta
             (alloc data (<["role" := VStr r2]> d) w) (<["role" := VStr r2]> d)
             (heap_alloc_lookup _ _ _)).
  cbv zeta. change (clock (alloc data (<["role" := VStr r2]> d) w)) with (clock w).
  unfold normalise_role. rewrite lookup_insert_eq, Hrole, insert_insert_eq, Hupper.
  destruct (lifetime cfg expires_delta) as [T|]; [|reflexivity].
  destruct (in_datetime_range (clock w + T)); reflexivity.
Qed.

(** X4: a [role] item that is an [int] or a [datetime], values without
    an [upper] method, makes [create_access_token] raise [AttributeError],
    whatever [expires_delta] is: the key is only tested for presence before
    [.upper()] is called on the value. *)
Theorem non_str_role_raises (cfg : Settings) (data : loc)
    (expires_delta : option timedelta) (w : world) (d : dict) (v : pyval) :
  heap w !! data = Some d →
  d !! "role" = Some v →
  (∃ n, v = VInt n) ∨ (∃ t, v = VDatetime t) →
  (create_access_token cfg data expires_delta w).1 = Raise AttributeError.
Proof.
  intros Hdata Hrole Hv.
  rewrite (create_access_token_cases cfg data expires_delta w d Hdata).
  cbv zeta. unfold normalise_role. rewrite Hrole.
  destruct Hv as [[n ->]|[t ->]]; reflexivity.
Qed.

(** X5: a non-zero [expires_delta] that takes the expiry out of the
    years 1 to 9999 makes [create_access_token] raise [OverflowError]; no
    token is issued. *)
Theorem expiry_out_of_range_raises (cfg : Settings) (data : loc)
    (w : world) (d : dict) (T : timedelta) :
  heap w !! data = Some d →
  (d !! "role" = None ∨ ∃ r, d !! "role" = Some (VStr r)) →
  T ≠ 0 →
  (clock w + T < DATETIME_MIN ∨ DATETIME_MAX < clock w + T) →
  (create_access_token cfg data (Some T) w).1 = Raise OverflowError.
Proof.
  intros Hdata Hrole HT Hout.
  rewrite (create_access_token_cases cfg data (Some T) w d Hdata).
  cbv zeta.
  assert (Hlife : lifetime cfg (Some T) = Some T).
  { unfold lifetime. simpl. rewrite (proj2 (Z.eqb_neq _ _) HT). reflexivity. }
  assert (Hr : in_datetime_range (clock w + T) = false).
  { unfold in_datetime_range. apply andb_false_iff.
    destruct Hout as [Hlo|Hhi]; [left | right]; apply Z.leb_gt; assumption. }
  rewrite Hlife, Hr. unfold normalise_role.
  destruct Hrole as [->|[r ->]]; reflexivity.
Qed.

(** X6: a mapping holding a [datetime] under a key other than [exp],
    [iat] and [nbf] never yields a token: the call raises (the library
    cannot serialise the value, unless the role or the expiry failed
    first). *)
Theorem datetime_claim_refused (cfg : Settings) (data : loc)
    (expires_delta : option timedelta) (w : world) (d : dict)
    (k : string) (t : datetime) :
  heap w !! data = Some d →
  d !! k = Some (VDatetime t) →
  k ∉ TIME_CLAIMS →
  ∃ e, (create_access_token cfg data expires_delta w).1 = Raise e.
Proof.
  intros Hdata Hk Htime.
  rewrite (create_access_token_cases cfg data expires_delta w d Hdata).
  cbv zeta.
  destruct (normalise_role d) as [d1|e] eqn:Hnorm; [|eexists; reflexivity].
  destruct (lifetime cfg expires_delta) as [T|]; [|eexists; reflexivity].
  destruct (in_datetime_range (clock w + T)); [|eexists; reflexivity].
  exists TypeError. simpl.
  assert (Hrole : k ≠ "role").
  { intros ->. unfold normalise_role in Hnorm. rewrite Hk in Hnorm. discriminate. }
  apply (jws_encode_datetime _ _ _ k t); [|exact Htime].
  rewrite lookup_insert_ne.
  - rewrite (normalise_role_lookup d d1 k Hnorm Hrole). exact Hk.
  - intros <-. apply Htime, time_claims_spec. auto.
Qed.

(** ** Verification of any token *)

Section Verification.

Variable cfg : Settings.

(** An expiry claim that has passed makes the claim checks fail. *)
Lemma validate_claims_expired (P : gmap string json) (x : Z) (now : datetime) :
  P !! "exp" = Some (JInt x) →
  x * MICROS_PER_SECOND ≤ now →
  ∃ e, validate_claims P now = Some e.
Proof.
  intros Hexp Hle. unfold validate_claims, first_error. simpl.
  destruct (validate_iat P now); [eexists; reflexivity|].
  destruct (validate_nbf P now); [eexists; reflexivity|].
  unfold validate_exp. rewrite Hexp. simpl.
  rewrite (proj2 (Z.leb_le _ _) Hle). eexists; reflexivity.
Qed.


(** What [decode_token] accepts, read off its result. *)
Lemma decode_token_Some (tok : token) (w w' : world) (d : dict) :
  decode_token cfg tok w = (Return (Some d), w') →
  ∃ P, tok = signed cfg P ∧ d = of_json <$> P ∧
       validate_claims P (clock w) = None ∧ w' = w.
Proof.
  unfold decode_token, try_except_PyJWTError, mbind, M_bind, jwt_decode,
    jws_decode, signed.
  destruct tok as [raw|raw|alg P sig]; simpl; [discriminate..|].
  destruct (bool_decide (alg ∈ [jwt_algorithm cfg])) eqn:Halg; [|discriminate].
  destruct (bool_decide (sig = _)) eqn:Hsig; [|discriminate].
  destruct (validate_claims P (clock w)) eqn:Hval; [discriminate|].
  intros [= <- <-].
  apply bool_decide_eq_true_1 in Halg, Hsig.
  apply list_elem_of_singleton in Halg. subst.
  exists P. repeat split. exact Hval.
Qed.

(** [decode_token] returns, on every well-formed token. *)
Lemma decode_token_compact_returns (alg : string) (P : gmap string json)
    (sig : signature) (w : world) :
  ∃ r, decode_token cfg (Compact alg P sig) w = (Return r, w).
Proof.
  unfold decode_token, try_except_PyJWTError, mbind, M_bind, jwt_decode,
    jws_decode. simpl.
  destruct (bool_decide (alg ∈ [jwt_algorithm cfg])); [|eexists; reflexivity].
  destruct (bool_decide (sig = _)); [|eexists; reflexivity].
  destruct (validate_claims P (clock w)); eexists; reflexivity.
Qed.

End Verification.


(** X8: for every mapping from string keys to [str], [int] and
    [datetime] values that a token was issued for, [decode_token] answers
    [None] at every instant at or after issuance time plus the selected
    lifetime: no such token outlives its lifetime. *)
Theorem issued_token_refused_from_expiry (cfg : Settings) (data : loc)
    (expires_delta : option timedelta) (w w' : world) (d : dict) (tok : token)
    (T : timedelta) (now : datetime) :
  heap w !! data = Some d →
  create_access_token cfg data expires_delta w = (Return tok, w') →
  lifetime cfg expires_delta = Some T →
  clock w + T ≤ now →
  decode_token cfg tok (with_clock now w') = (Return None, with_clock now w').
Proof.
  intros Hdata Hrun Hlife Hnow.
  destruct (create_access_token_Return cfg data expires_delta w w' d tok Hdata Hrun)
    as (d1 & T' & P & _ & Hlife' & _ & -> & HP).
  assert (T' = T) as -> by congruence.
  assert (Hexp : P !! "exp" = Some (JInt (timegm (clock w + T))))
    by (rewrite HP; apply converted_exp).
  rewrite decode_token_signed.
  pose proof (timegm_bounds (clock w + T)) as Hb.
  destruct (validate_claims_expired P _ now Hexp ltac:(simpl; lia)) as [e He].
  simpl. rewrite He. reflexivity.
Qed.

Lemma key_block_short (alg key : string) :
  (String.length key ≤ 64)%nat → key_block alg key = rstrip_nul key.
Proof.
  intros Hlen. unfold key_block, block_size.
  rewrite (proj2 (Nat.leb_le _ _)); [reflexivity|].
  destruct (String.eqb alg "HS256"); lia.
Qed.

(** X9: a token issued under one configuration is refused, at every
    instant, under a configuration with another algorithm, and under one
    whose secret key differs from the issuing key by more than trailing NUL
    bytes, both keys being at most 64 bytes long (keys that HMAC pads with
    zeros to the block size). *)
Theorem other_key_refuses (cfg cfg' : Settings) (data : loc)
    (expires_delta : option timedelta) (w w' w'' : world) (d : dict) (tok : token) :
  heap w !! data = Some d →
  create_access_token cfg data expires_delta w = (Return tok, w') →
  jwt_algorithm cfg' ≠ jwt_algorithm cfg ∨
  ((String.length (jwt_secret_key cfg) ≤ 64)%nat ∧
   (String.length (jwt_secret_key cfg') ≤ 64)%nat ∧
   rstrip_nul (jwt_secret_key cfg') ≠ rstrip_nul (jwt_secret_key cfg)) →
  decode_token cfg' tok w'' = (Return None, w'').
Proof.
  intros Hdata Hrun Hdiff.
  destruct (create_access_token_Return cfg data expires_delta w w' d tok Hdata Hrun)
    as (d1 & T & P & _ & _ & _ & -> & _).
  destruct (decode_token_compact_returns cfg' (jwt_algorithm cfg) P
              (Mac (jwt_secret_key cfg) (jwt_algorithm cfg) P) w'')
    as [[d'|] Hr]; [|exact Hr].
  destruct (decode_token_Some cfg' _ _ _ _ Hr) as (P' & Heq & _).
  unfold signed, Mac in Heq. injection Heq as Halg HP Hblock.
  destruct Hdiff as [Ha|(Hlen & Hlen' & Hk)]; [congruence|].
  rewrite <- Halg in Hblock.
  rewrite !key_block_short in Hblock by assumption. congruence.
Qed.

(** X10: for a token that carries neither [iat] nor [nbf], acceptance
    only ends, it never begins: claims returned at an instant are returned,
    the same, at every earlier instant. *)
Theorem acceptance_downward_closed (cfg : Settings) (alg : string)
    (P : gmap string json) (sig : signature) (w : world)
    (now1 now2 : datetime) (d : dict) :
  P !! "iat" = None →
  P !! "nbf" = None →
  now1 ≤ now2 →
  decode_token cfg (Compact alg P sig) (with_clock now2 w)
  = (Return (Some d), with_clock now2 w) →
  decode_token cfg (Compact alg P sig) (with_clock now1 w)
  = (Return (Some d), with_clock now1 w).
Proof.
  intros Hiat Hnbf Hle Hdec.
  destruct (decode_token_Some cfg _ _ _ _ Hdec) as (P' & Heq & -> & Hval & _).
  rewrite Heq. unfold signed in Heq. injection Heq as -> -> ->.
  rewrite decode_token_signed.
  assert (Hval1 : validate_claims P' (clock (with_clock now1 w)) = None).
  { simpl in *. unfold validate_claims, first_error in *. simpl in *.
    unfold validate_iat, validate_nbf in *. rewrite Hiat, Hnbf in *.
    unfold validate_exp in *.
    destruct (P' !! "exp") as [v|]; [|exact Hval].
    destruct (py_int v) as [x|]; [|discriminate].
    destruct (Z.leb_spec (x * MICROS_PER_SECOND) now2); [discriminate|].
    rewrite (proj2 (Z.leb_gt _ _)) by lia. exact Hval. }
  rewrite Hval1. reflexivity.
Qed.

(** X11: a negative [expires_delta] is not refused: the token for a
    subject and role is issued, and [decode_token] answers [None] for it at
    the instant of issuance and ever after. *)
Theorem negative_lifetime_dead_on_arrival (cfg : Settings) (data : loc)
    (w : world) (sub role : string) (T : timedelta) (now : datetime) :
  heap w !! data = Some (claims_of sub role) →
  T < 0 →
  DATETIME_MIN ≤ clock w + T →
  clock w ≤ DATETIME_MAX →
  clock w ≤ now →
  ∃ tok w',
    create_access_token cfg data (Some T) w = (Return tok, w') ∧
    decode_token cfg tok (with_clock now w') = (Return None, with_clock now w').
Proof.
  intros Hdata HT Hlo Hhi Hnow.
  assert (Hlife : lifetime cfg (Some T) = Some T).
  { unfold lifetime. simpl. rewrite (proj2 (Z.eqb_neq _ _)) by lia. reflexivity. }
  eexists. eexists. split.
  - apply (create_access_token_eval cfg data (Some T) w sub role T);
      [exact Hdata | exact Hlife | lia].
  - apply decode_token_expired. simpl.
    pose proof (timegm_bounds (clock w + T)). lia.
Qed.

(** X12: a token for a subject and role is accepted at every instant
    up to one second before issuance time plus lifetime; the truncation of
    the expiry to whole seconds costs less than a second. *)
Theorem token_valid_for_lifetime_less_a_second (cfg : Settings) (data : loc)
    (expires_delta : option timedelta) (w : world) (sub role : string)
    (T : timedelta) (now : datetime) :
  heap w !! data = Some (claims_of sub role) →
  lifetime cfg expires_delta = Some T →
  DATETIME_MIN ≤ clock w + T ≤ DATETIME_MAX →
  now ≤ clock w + T - MICROS_PER_SECOND →
  ∃ tok w',
    create_access_token cfg data expires_delta w = (Return tok, w') ∧
    decode_token cfg tok (with_clock now w')
    = (Return (Some (decoded_claims sub role (timegm (clock w + T)))),
       with_clock now w').
Proof.
  intros Hdata Hlife Hrange Hnow.
  eexists. eexists. split.
  - apply (create_access_token_eval cfg data expires_delta w sub role T);
      assumption.
  - apply decode_token_fresh. simpl.
    pose proof (timegm_bounds (clock w + T)). lia.
Qed.

(** X13: tokens identify their claims: if two calls, each for a subject
    and an ASCII role, return the same token, the subjects are equal and the
    roles are equal up to case: one string is the upper case of both. *)
Theorem equal_tokens_equal_claims (cfg : Settings) (data1 data2 : loc)
    (delta1 delta2 : option timedelta) (w1 w2 w1' w2' : world)
    (sub1 role1 sub2 role2 : string) (tok : token) :
  heap w1 !! data1 = Some (claims_of sub1 role1) →
  heap w2 !! data2 = Some (claims_of sub2 role2) →
  isascii role1 = true →
  isascii role2 = true →
  create_access_token cfg data1 delta1 w1 = (Return tok, w1') →
  create_access_token cfg data2 delta2 w2 = (Return tok, w2') →
  sub1 = sub2 ∧
  ∃ u, uppercased role1 u ∧ uppercased role2 u ∧ u = upper role1.
Proof.
  intros H1 H2 _ _ Hrun1 Hrun2.
  assert (Hshape : ∀ data delta w w' sub role,
    heap w !! data = Some (claims_of sub role) →
    create_access_token cfg data delta w = (Return tok, w') →
    ∃ x, tok = signed cfg (token_payload sub role x)).
  { intros data delta w w' sub role Hdata Hrun.
    destruct (create_access_token_Return cfg data delta w w' _ tok Hdata Hrun)
      as (d1 & T & P & _ & Hlife & Hr & _ & _).
    apply andb_true_iff in Hr as [Hlo%Z.leb_le Hhi%Z.leb_le].
    rewrite (create_access_token_eval cfg data delta w sub role T Hdata Hlife
               (conj Hlo Hhi)) in Hrun.
    injection Hrun as <- _. eexists. reflexivity. }
  destruct (Hshape _ _ _ _ _ _ H1 Hrun1) as [x1 ->].
  destruct (Hshape _ _ _ _ _ _ H2 Hrun2) as [x2 Heq].
  assert (Hpay : token_payload sub1 role1 x1 = token_payload sub2 role2 x2)
    by (unfold signed in Heq; congruence).
  pose proof (f_equal (λ P : gmap string json, P !! "sub") Hpay) as Hsub.
  pose proof (f_equal (λ P : gmap string json, P !! "role") Hpay) as Hrole.
  unfold token_payload in Hsub, Hrole. simpl in Hsub, Hrole.
  rewrite !lookup_insert_eq in Hsub.
  rewrite !(lookup_insert_ne _ "sub" "role") in Hrole by discriminate.
  rewrite !lookup_insert_eq in Hrole.
  split; [congruence|].
  exists (upper role1). split; [apply upper_uppercased|].
  split; [|reflexivity].
  assert (upper role1 = upper role2) as -> by congruence.
  apply upper_uppercased.
Qed.

(** ** Role names and the token fixtures *)

Lemma upper_ascii_idempotent (c : ascii) :
  upper_ascii (upper_ascii c) = upper_ascii c.
Proof. destruct c as [[] [] [] [] [] [] [] []]; reflexivity. Qed.

Lemma upper_idempotent (s : string) : upper (upper s) = upper s.
Proof.
  induction s as [|c s IH]; [reflexivity|].
  cbn [upper]. rewrite upper_ascii_idempotent, IH. reflexivity.
Qed.

Lemma upper_name (r : UserRole) : upper (name r) = name r.
Proof. destruct r; reflexivity. Qed.

Lemma name_inj (r1 r2 : UserRole) : name r1 = name r2 → r1 = r2.
Proof. destruct r1, r2; simpl; intros H; (reflexivity || discriminate H). Qed.

Lemma dict_display_eval (items : dict) (w : world) :
  dict_display items w
  = (Return (fresh (dom (heap w))), alloc (fresh (dom (heap w))) items w).
Proof. reflexivity. Qed.

(** X14: the token fixtures. For any user, [user_token] (and so
    [admin_token], [manager_token]) returns a token; before its expiry
    [decode_token] gives back the user's email as [sub] and the name of the
    user's role as [role], unchanged by the upper-casing, so that the role
    claim names exactly the role [has_role] accepts; the objects that
    existed before the call are untouched. *)
Theorem user_token_roundtrip (cfg : Settings) (user : User) (w : world)
    (now : datetime) :
  0 ≤ access_token_expire_minutes cfg →
  DATETIME_MIN ≤ clock w →
  clock w + access_token_expire_minutes cfg * MICROS_PER_MINUTE ≤ DATETIME_MAX →
  now < timegm (clock w + access_token_expire_minutes cfg * MICROS_PER_MINUTE)
        * MICROS_PER_SECOND →
  ∃ tok w' claims,
    user_token cfg user w = (Return tok, w') ∧
    decode_token cfg tok (with_clock now w')
    = (Return (Some claims), with_clock now w') ∧
    claims !! "sub" = Some (VStr (email user)) ∧
    claims !! "role" = Some (VStr (name (role user))) ∧
    (∀ r, claims !! "role" = Some (VStr (name r)) ↔ has_role user r = true) ∧
    (∀ l, l ∈ dom (heap w) → heap w' !! l = heap w !! l).
Proof.
  intros Hmin Hlo Hhi Hnow.
  set (T := access_token_expire_minutes cfg * MICROS_PER_MINUTE) in *.
  assert (HT : 0 ≤ T) by (unfold T, MICROS_PER_MINUTE, MICROS_PER_SECOND; lia).
  set (l := fresh (dom (heap w))).
  set (w1 := alloc l (claims_of (email user) (name (role user))) w).
  assert (Hrun : user_token cfg user w
    = (Return (signed cfg (token_payload (email user) (name (role user))
                             (timegm (clock w + T)))),
       alloc (fresh (dom (heap w1)))
         (encoded_claims (email user) (name (role user)) (clock w + T)) w1)).
  { unfold user_token.
    erewrite bind_return by apply dict_display_eval.
    apply (create_access_token_eval cfg l None w1 _ _ T).
    - apply heap_alloc_lookup.
    - change (lifetime cfg None) with (lifetime cfg (Some 0)).
      apply default_lifetime. fold T. lia.
    - simpl. lia. }
  eexists. eexists.
  exists (decoded_claims (email user) (name (role user)) (timegm (clock w + T))).
  split; [exact Hrun|].
  split; [apply decode_token_fresh; exact Hnow|].
  unfold decoded_claims. rewrite upper_name.
  split; [lookup_lit; reflexivity|].
  split; [lookup_lit; reflexivity|].
  split.
  - intros r. lookup_lit. rewrite has_role_true. split.
    + intros [= H]. apply name_inj. exact H.
    + intros ->. reflexivity.
  - intros l' Hl'. simpl.
    assert (Hl1 : l' ≠ l) by (intros ->; exact (is_fresh (dom (heap w)) Hl')).
    assert (Hl2 : l' ≠ fresh (dom (heap w1))).
    { intros Heq. apply (is_fresh (dom (heap w1))).
      assert (Hdom : dom (heap w1) = {[l]} ∪ dom (heap w))
        by (unfold w1, alloc; simpl; apply dom_insert_L).
      rewrite Hdom at 2. apply elem_of_union_r. rewrite <- Heq. exact Hl'. }
    rewrite lookup_insert_ne by (intros E; apply Hl2; symmetry; exact E).
    rewrite lookup_insert_ne by (intros E; apply Hl1; symmetry; exact E).
    reflexivity.
Qed.

(** ** The methods of the account record *)

(** X15: no method of the account record touches who the account is:
    [lock_account], [unlock_account], [verify_email] and
    [update_professional_status] leave id, nickname, email, password digest
    and role as they were, so [has_role] and [__repr__] answer the same
    before and after. *)
Theorem operations_keep_identity (o : user_op) (u : User) :
  id (apply_op o u) = id u ∧
  nickname (apply_op o u) = nickname u ∧
  email (apply_op o u) = email u ∧
  hashed_password (apply_op o u) = hashed_password u ∧
  role (apply_op o u) = role u ∧
  (∀ r, has_role (apply_op o u) r = has_role u r) ∧
  __repr__ (apply_op o u) = __repr__ u.
Proof. destruct o; repeat split. Qed.

(** X16: how the methods compose. Each is idempotent; of a lock and an
    unlock the later one wins; [verify_email] and
    [update_professional_status] commute with locking, with unlocking and
    with each other. *)
Theorem operations_compose (u : User) :
  (∀ o, apply_op o (apply_op o u) = apply_op o u) ∧
  lock_account (unlock_account u) = lock_account u ∧
  unlock_account (lock_account u) = unlock_account u ∧
  (∀ o, o ≠ OpLock → o ≠ OpUnlock →
        apply_op o (lock_account u) = lock_account (apply_op o u) ∧
        apply_op o (unlock_account u) = unlock_account (apply_op o u)) ∧
  (∀ now status,
     verify_email (update_professional_status now u status)
     = update_professional_status now (verify_email u) status).
Proof.
  split; [intros []; reflexivity|].
  split; [reflexivity|]. split; [reflexivity|].
  split; [|reflexivity].
  intros [] H1 H2; try congruence; split; reflexivity.
Qed.

(** X17: [update_professional_status] is never a no-op in time: called
    with the status the account already has, it leaves the status and still
    moves [professional_status_updated_at] to the time of the call; and of
    two successive calls only the second is visible. *)
Theorem update_professional_status_stamps (now1 now2 : datetime) (u : User)
    (s1 s2 : bool) :
  professional_status_updated_at u ≠ Some now1 →
  update_professional_status now1 u (is_professional u) ≠ u ∧
  is_professional (update_professional_status now1 u (is_professional u))
  = is_professional u ∧
  professional_status_updated_at
    (update_professional_status now1 u (is_professional u)) = Some now1 ∧
  update_professional_status now2 (update_professional_status now1 u s1) s2
  = update_professional_status now2 u s2.
Proof.
  intros Hne. split; [|repeat split].
  intros Heq. apply Hne. rewrite <- Heq at 1. reflexivity.
Qed.

(** ** [__repr__] *)

Lemma list_ascii_of_append (s1 s2 : string) :
  list_ascii_of_string (s1 ++ s2)
  = (list_ascii_of_string s1 ++ list_ascii_of_string s2)%list.
Proof.
  induction s1 as [|c s1 IH]; [reflexivity|].
  change (String c s1 ++ s2)%string with (String c (s1 ++ s2)).
  cbn [list_ascii_of_string]. rewrite IH. reflexivity.
Qed.

Lemma list_ascii_of_string_inj (s1 s2 : string) :
  list_ascii_of_string s1 = list_ascii_of_string s2 → s1 = s2.
Proof.
  intros H. rewrite <- (string_of_list_ascii_of_string s1),
    <- (string_of_list_ascii_of_string s2), H. reflexivity.
Qed.

(** X18: [__repr__] identifies nickname and role: two accounts print
    the same if and only if they have the same nickname and the same role,
    whatever the nickname contains. *)
Theorem repr_identifies_nickname_and_role (u1 u2 : User) :
  __repr__ u1 = __repr__ u2 ↔ nickname u1 = nickname u2 ∧ role u1 = role u2.
Proof.
  split; [|intros [Hn Hr]; unfold __repr__; rewrite Hn, Hr; reflexivity].
  unfold __repr__. intros H.
  apply (f_equal list_ascii_of_string) in H.
  rewrite !list_ascii_of_append in H.
  apply app_inv_head in H.
  assert (Hrole : role u1 = role u2).
  { apply (f_equal (@rev ascii)) in H. rewrite !rev_app_distr in H.
    destruct (role u1), (role u2); try reflexivity;
      simpl in H; discriminate H. }
  split; [|exact Hrole].
  rewrite Hrole in H. apply app_inv_tail in H.
  apply list_ascii_of_string_inj. exact H.
Qed.

(** ** Sample runs of the properties above *)

Lemma sample_range :
  DATETIME_MIN ≤ clock sample_world + 900000000 ≤ DATETIME_MAX.
Proof. unfold DATETIME_MIN, DATETIME_MAX, MICROS_PER_SECOND. simpl. lia. Qed.

Lemma sample_issue :
  create_access_token sample_settings 0%nat (Some 900000000) sample_world
  = (Return sample_token, sample_world').
Proof.
  exact (create_access_token_eval sample_settings 0%nat (Some 900000000)
           sample_world "john.doe@example.com" "authenticated" 900000000
           eq_refl eq_refl sample_range).
Qed.

Lemma manager_issue :
  create_access_token sample_settings 0%nat (Some 900000000)
    (world_of (claims_of "manager@example.com" "Manager") 1700000000500000)
  = (Return (signed sample_settings
               (token_payload "manager@example.com" "Manager" 1700000900)),
     alloc 1%nat
       (encoded_claims "manager@example.com" "Manager" 1700000900500000)
       (world_of (claims_of "manager@example.com" "Manager") 1700000000500000)).
Proof.
  exact (create_access_token_eval sample_settings 0%nat (Some 900000000)
           (world_of (claims_of "manager@example.com" "Manager")
              1700000000500000)
           "manager@example.com" "Manager" 900000000
           eq_refl eq_refl sample_range).
Qed.

Lemma issued_token_claims_witness :
  let w := world_of (claims_of "manager@example.com" "Manager")
             1700000000500000 in
  heap w !! 0%nat = Some (claims_of "manager@example.com" "Manager") ∧
  isascii "Manager" = true ∧
  ∃ P T,
    signed sample_settings
      (token_payload "manager@example.com" "Manager" 1700000900)
    = signed sample_settings P ∧
    lifetime sample_settings (Some 900000000) = Some T ∧
    P !! "exp" = Some (JInt (timegm (clock w + T))) ∧
    P !! "role" = Some (JStr "MANAGER") ∧
    uppercased "Manager" "MANAGER".
Proof.
  intros w. split; [reflexivity|]. split; [reflexivity|].
  destruct (issued_token_claims sample_settings 0%nat (Some 900000000)
              w _ _ _ eq_refl manager_issue)
    as (P & T & Htok & Hlife & Hexp & Hrole & _).
  destruct (Hrole "Manager" eq_refl eq_refl) as (r' & Hr' & -> & Hup).
  exists P, T.
  split; [exact Htok|]. split; [exact Hlife|]. split; [exact Hexp|].
  split; [exact Hr' | exact Hup].
Defined.

Lemma caller_exp_ignored_witness :
  heap sample_world !! 0%nat = Some sample_data ∧
  match (create_access_token sample_settings 0%nat (Some 900000000)
           (alloc 0%nat (<["exp" := VInt 4102444800]> sample_data)
              sample_world)).1,
        (create_access_token sample_settings 0%nat (Some 900000000)
           sample_world).1 with
  | Return tok1, Return tok2 =>
      ∀ cfg' w0, (decode_token cfg' tok1 w0).1 = (decode_token cfg' tok2 w0).1
  | Raise e1, Raise e2 => e1 = e2
  | _, _ => False
  end.
Proof.
  split; [reflexivity|].
  exact (caller_exp_ignored sample_settings 0%nat (Some 900000000)
           sample_world sample_data (VInt 4102444800) eq_refl).
Defined.

Lemma role_case_insensitive_witness :
  sample_data !! "role" = Some (VStr "authenticated") ∧
  upper "authenticated" = upper "Authenticated" ∧
  (create_access_token sample_settings 0%nat (Some 900000000)
     (alloc 0%nat (<["role" := VStr "Authenticated"]> sample_data) sample_world)).1
  = (create_access_token sample_settings 0%nat (Some 900000000) sample_world).1.
Proof.
  split; [reflexivity|]. split; [reflexivity|].
  exact (role_case_insensitive sample_settings 0%nat (Some 900000000)
           sample_world sample_data "authenticated" "Authenticated"
           eq_refl eq_refl eq_refl).
Defined.

Lemma non_str_role_raises_witness :
  let d : dict := <["sub" := VStr "john.doe@example.com"]> (<["role" := VInt 3]> ∅) in
  d !! "role" = Some (VInt 3) ∧
  (create_access_token sample_settings 0%nat None (world_of d 1700000000500000)).1
  = Raise AttributeError.
Proof.
  intros d. split; [reflexivity|].
  apply (non_str_role_raises sample_settings 0%nat None
           (world_of d 1700000000500000) d (VInt 3));
    [reflexivity | reflexivity | left; exists 3; reflexivity].
Defined.

Lemma expiry_out_of_range_raises_witness :
  DATETIME_MAX < clock sample_world + 999999999 * MICROS_PER_DAY ∧
  (create_access_token sample_settings 0%nat
     (Some (999999999 * MICROS_PER_DAY)) sample_world).1
  = Raise OverflowError.
Proof.
  split; [reflexivity|].
  apply (expiry_out_of_range_raises sample_settings 0%nat sample_world
           sample_data (999999999 * MICROS_PER_DAY));
    [reflexivity | right; exists "authenticated"; reflexivity
    | discriminate | right; reflexivity].
Defined.

Lemma datetime_claim_refused_witness :
  let d : dict := <["issued" := VDatetime 1700000000500000]> sample_data in
  d !! "issued" = Some (VDatetime 1700000000500000) ∧
  ("issued" ∉ TIME_CLAIMS) ∧
  ∃ e, (create_access_token sample_settings 0%nat None
          (world_of d 1700000000500000)).1 = Raise e.
Proof.
  intros d.
  assert (Hk : "issued" ∉ TIME_CLAIMS)
    by (rewrite time_claims_spec; intros [?|[?|?]]; discriminate).
  split; [reflexivity|]. split; [exact Hk|].
  exact (datetime_claim_refused sample_settings 0%nat None
           (world_of d 1700000000500000) d "issued" 1700000000500000
           eq_refl eq_refl Hk).
Defined.

Lemma sample_accept :
  decode_token sample_settings sample_token
    (with_clock 1700000899500000 sample_world')
  = (Return (Some (decoded_claims "john.doe@example.com" "authenticated"
                     1700000900)),
     with_clock 1700000899500000 sample_world').
Proof. apply decode_token_fresh. reflexivity. Qed.


Lemma issued_token_refused_from_expiry_witness :
  clock sample_world + 900000000 ≤ 1700000900500000 ∧
  decode_token sample_settings sample_token
    (with_clock 1700000900500000 sample_world')
  = (Return None, with_clock 1700000900500000 sample_world').
Proof.
  split; [reflexivity|].
  apply (issued_token_refused_from_expiry sample_settings 0%nat
           (Some 900000000) sample_world sample_world' sample_data
           sample_token 900000000 1700000900500000
           eq_refl sample_issue eq_refl).
  discriminate.
Defined.

Lemma other_key_refuses_witness :
  let cfg' := {| access_token_expire_minutes := 30;
                 jwt_secret_key := "rotated_key";
                 jwt_algorithm := "HS256";
                 max_login_attempts := 5 |} in
  (String.length (jwt_secret_key sample_settings) ≤ 64)%nat ∧
  (String.length (jwt_secret_key cfg') ≤ 64)%nat ∧
  rstrip_nul (jwt_secret_key cfg') ≠ rstrip_nul (jwt_secret_key sample_settings) ∧
  decode_token cfg' sample_token (with_clock 1700000001000000 sample_world')
  = (Return None, with_clock 1700000001000000 sample_world').
Proof.
  intros cfg'.
  assert (H1 : (String.length (jwt_secret_key sample_settings) ≤ 64)%nat)
    by (simpl; lia).
  assert (H2 : (String.length (jwt_secret_key cfg') ≤ 64)%nat) by (simpl; lia).
  assert (H3 : rstrip_nul (jwt_secret_key cfg')
               ≠ rstrip_nul (jwt_secret_key sample_settings)) by discriminate.
  split; [exact H1|]. split; [exact H2|]. split; [exact H3|].
  apply (other_key_refuses sample_settings cfg' 0%nat (Some 900000000)
           sample_world sample_world' _ sample_data sample_token
           eq_refl sample_issue).
  right. split; [exact H1|]. split; [exact H2 | exact H3].
Defined.

Lemma acceptance_downward_closed_witness :
  1700000001000000 ≤ 1700000899500000 ∧
  decode_token sample_settings sample_token
    (with_clock 1700000001000000 sample_world')
  = (Return (Some (decoded_claims "john.doe@example.com" "authenticated"
                     1700000900)),
     with_clock 1700000001000000 sample_world').
Proof.
  split; [discriminate|].
  apply (acceptance_downward_closed sample_settings "HS256"
           (token_payload "john.doe@example.com" "authenticated" 1700000900)
           (Mac "a_very_secret_key" "HS256"
              (token_payload "john.doe@example.com" "authenticated" 1700000900))
           sample_world' 1700000001000000 1700000899500000 _
           eq_refl eq_refl ltac:(discriminate) sample_accept).
Defined.

Lemma negative_lifetime_dead_on_arrival_witness :
  (-60000000) < 0 ∧
  ∃ tok w',
    create_access_token sample_settings 0%nat (Some (-60000000)) sample_world
    = (Return tok, w') ∧
    decode_token sample_settings tok (with_clock (clock sample_world) w')
    = (Return None, with_clock (clock sample_world) w').
Proof.
  split; [reflexivity|].
  apply (negative_lifetime_dead_on_arrival sample_settings 0%nat sample_world
           "john.doe@example.com" "authenticated" (-60000000)
           (clock sample_world) eq_refl eq_refl);
    discriminate.
Defined.

Lemma token_valid_for_lifetime_less_a_second_witness :
  1700000899500000 ≤ clock sample_world + 900000000 - MICROS_PER_SECOND ∧
  ∃ tok w',
    create_access_token sample_settings 0%nat (Some 900000000) sample_world
    = (Return tok, w') ∧
    decode_token sample_settings tok (with_clock 1700000899500000 w')
    = (Return (Some (decoded_claims "john.doe@example.com" "authenticated"
                       (timegm (clock sample_world + 900000000)))),
       with_clock 1700000899500000 w').
Proof.
  split; [discriminate|].
  apply (token_valid_for_lifetime_less_a_second sample_settings 0%nat
           (Some 900000000) sample_world "john.doe@example.com"
           "authenticated" 900000000 1700000899500000
           eq_refl eq_refl sample_range).
  discriminate.
Defined.

Lemma equal_tokens_equal_claims_witness :
  let w1 := world_of (claims_of "admin@example.com" "admin") 1700000000500000 in
  let w2 := {| heap := {[ 5%nat := claims_of "admin@example.com" "ADMIN" ]};
               clock := 1700000000900000 |} in
  isascii "admin" = true ∧ isascii "ADMIN" = true ∧
  (create_access_token sample_settings 0%nat (Some 900000000) w1).1
  = (create_access_token sample_settings 5%nat (Some 900000000) w2).1 ∧
  ∃ u, uppercased "admin" u ∧ uppercased "ADMIN" u ∧ u = "ADMIN".
Proof.
  intros w1 w2.
  assert (Hr1 : DATETIME_MIN ≤ clock w1 + 900000000 ≤ DATETIME_MAX).
  { unfold DATETIME_MIN, DATETIME_MAX, MICROS_PER_SECOND. simpl. lia. }
  assert (Hr2 : DATETIME_MIN ≤ clock w2 + 900000000 ≤ DATETIME_MAX).
  { unfold DATETIME_MIN, DATETIME_MAX, MICROS_PER_SECOND. simpl. lia. }
  pose proof (create_access_token_eval sample_settings 0%nat (Some 900000000)
                w1 "admin@example.com" "admin" 900000000
                eq_refl eq_refl Hr1) as Hrun1.
  pose proof (create_access_token_eval sample_settings 5%nat (Some 900000000)
                w2 "admin@example.com" "ADMIN" 900000000
                eq_refl eq_refl Hr2) as Hrun2.
  split; [reflexivity|]. split; [reflexivity|].
  split; [rewrite Hrun1, Hrun2; reflexivity|].
  exact (proj2 (equal_tokens_equal_claims sample_settings 0%nat 5%nat
                  (Some 900000000) (Some 900000000) w1 w2 _ _
                  "admin@example.com" "admin" "admin@example.com" "ADMIN" _
                  eq_refl eq_refl eq_refl eq_refl Hrun1 Hrun2)).
Defined.

Lemma user_token_roundtrip_witness :
  let u := user_fixture ADMIN in
  let w := world_of ∅ 1700000000500000 in
  0 ≤ access_token_expire_minutes sample_settings ∧
  ∃ tok w' claims,
    user_token sample_settings u w = (Return tok, w') ∧
    decode_token sample_settings tok (with_clock 1700001799999999 w')
    = (Return (Some claims), with_clock 1700001799999999 w') ∧
    claims !! "sub" = Some (VStr "john.doe@example.com") ∧
    claims !! "role" = Some (VStr "ADMIN").
Proof.
  intros u w. split; [discriminate|].
  destruct (user_token_roundtrip sample_settings u w 1700001799999999)
    as (tok & w' & claims & Hrun & Hdec & Hsub & Hrole & _);
    [discriminate | discriminate | discriminate | reflexivity |].
  exists tok, w', claims. repeat split; assumption.
Defined.

Lemma update_professional_status_stamps_witness :
  let u := user_fixture AUTHENTICATED in
  professional_status_updated_at u ≠ Some 1700000000500000 ∧
  update_professional_status 1700000000500000 u (is_professional u) ≠ u.
Proof.
  intros u. split; [discriminate|].
  apply (update_professional_status_stamps 1700000000500000 0 u false false).
  discriminate.
Defined.
